(** * shopify-customers: fetch a customer segment and export it as CSV

    A shallow embedding of [main.go] (functions [fetchAndExportCustomers],
    [executeGraphQLQuery] and [exportToCSV]) together with the parts of the
    libraries it calls that decide its observable behaviour:
    - [shopspring/decimal]: [Decimal.Round] and [Decimal.StringFixed];
    - [bufio]: [Writer.WriteString], [Writer.WriteByte] and [Writer.Flush],
      with the buffer of 4096 bytes that [csv.NewWriter] asks for;
    - [encoding/csv]: [Writer.Write], [Writer.Flush] and [Reader.ReadAll];
    - [context], [net/http], [encoding/json], [os]: through an environment
      of oracles and a logical clock.

    Go strings are byte strings: they are modelled by [string] (a list of
    8-bit [ascii]).  Go's [int] and [big.Int] are modelled by [Z]. *)

From Stdlib Require Import ZArith Lia Bool Ascii String List DecimalString.
From Stdlib Require DecimalPos DecimalZ.
From stdpp Require Import base option list strings gmap.

Local Open Scope Z_scope.

(** ** Decimal rendering of integers ([%d], [big.Int.String]) *)

Definition itoa (z : Z) : string := NilZero.string_of_int (Z.to_int z).

Definition isDigit (c : ascii) : bool :=
  let n := nat_of_ascii c in ((48 <=? n) && (n <=? 57))%nat.

Fixpoint allDigits (s : string) : bool :=
  match s with
  | EmptyString => true
  | String c s' => isDigit c && allDigits s'
  end.

(** ** shopspring/decimal

    [main.go] imports github.com/shopspring/decimal; the repository does
    not contain it.  [rescale], [Round], [string_] and [StringFixed] follow
    the library's [decimal.go]. *)

Module decimal.

(** A decimal number is [value * 10 ^ exp]; [value] is a [big.Int] and
    [exp] an [int32]. *)
Record Decimal : Type := mkDecimal { value : Z; exp : Z }.

(** [Decimal.rescale]: the same number at another exponent; digits that no
    longer fit are cut off by [big.Int.Quo], which truncates towards zero. *)
Definition rescale (d : Decimal) (e : Z) : Decimal :=
  if exp d =? e then d
  else
    let diff := Z.abs (e - exp d) in
    let expScale := 10 ^ diff in
    if exp d <? e
    then mkDecimal (Z.quot (value d) expScale) e
    else mkDecimal (value d * expScale) e.

(** [Decimal.Round]: truncate to [places + 1] digits, add [sign * 5], then
    take the floor for positive and the ceiling for negative numbers of the
    division by ten ([big.Int.DivMod] is Euclidean division). *)
Definition Round (d : Decimal) (places : Z) : Decimal :=
  if exp d =? - places then d
  else
    let ret := rescale d (- places - 1) in
    let v := if value ret <? 0 then value ret - 5 else value ret + 5 in
    let q := v / 10 in
    let m := v mod 10 in
    let q' := if (q <? 0) && negb (m =? 0) then q + 1 else q in
    mkDecimal q' (exp ret + 1).

Definition len (s : string) : Z := Z.of_nat (String.length s).

Fixpoint Repeat (s : string) (n : nat) : string :=
  match n with
  | O => ""
  | S n' => s +:+ Repeat s n'
  end.

(** [Decimal.string(trimTrailingZeros = false)]. *)
Definition string_ (d : Decimal) : string :=
  if 0 <=? exp d then itoa (value (rescale d 0))
  else
    let str := itoa (Z.abs (value d)) in
    let dExpInt := exp d in
    let parts :=
      if - dExpInt <? len str
      then (substring 0 (Z.to_nat (len str + dExpInt)) str,
            substring (Z.to_nat (len str + dExpInt)) (Z.to_nat (- dExpInt)) str)
      else ("0", Repeat "0" (Z.to_nat (- dExpInt - len str)) +:+ str) in
    let number :=
      if 0 <? len (snd parts) then fst parts +:+ "." +:+ snd parts
      else fst parts in
    if value d <? 0 then "-" +:+ number else number.

Definition StringFixed (d : Decimal) (places : Z) : string :=
  string_ (Round d places).

(** Rounding half away from zero of [v / s] (what [java.math] calls
    HALF_UP), stated directly: the magnitude is [floor (|v| / s + 1/2)]. *)
Definition round_half_up (v s : Z) : Z :=
  Z.sgn v * ((2 * Z.abs v + s) / (2 * s)).

(** Rounding half to even of [v / s], for comparison. *)
Definition round_half_even (v s : Z) : Z :=
  let q := Z.abs v / s in
  let r := Z.abs v mod s in
  Z.sgn v * (if 2 * r <? s then q
             else if s <? 2 * r then q + 1
             else if Z.even q then q else q + 1).

End decimal.

(** ** Go errors

    The program builds every error with [fmt.Errorf]: either a plain message
    or a prefix wrapping a cause ([%w]).  Library errors are plain messages. *)

Inductive error : Type :=
| errorString (msg : string)
| wrapError (prefix : string) (cause : error).

(** [err.Error()] *)
Fixpoint Error (e : error) : string :=
  match e with
  | errorString msg => msg
  | wrapError prefix cause => prefix +:+ Error cause
  end.

Inductive result (A : Type) : Type :=
| Ok (a : A)
| Err (e : error).
Arguments Ok {A} a.
Arguments Err {A} e.

(** ** context: deadlines on a logical clock (milliseconds) *)

Definition Time : Type := N.

Module context.

Inductive ctxError : Type := Canceled | DeadlineExceeded.

(** A context is described by the instant at which its [Done] channel is
    closed, if ever, and the reason [Err] reports from then on. *)
Record Context : Type := mkContext { doneAt : option Time; reason : ctxError }.

Definition Background : Context := mkContext None Canceled.

Definition WithTimeout (now timeout : Time) : Context :=
  mkContext (Some (now + timeout)%N) DeadlineExceeded.

(** [ctx.Err()] read at time [now]. *)
Definition Err_ (ctx : Context) (now : Time) : option ctxError :=
  match doneAt ctx with
  | Some t => if (t <=? now)%N then Some (reason ctx) else None
  | None => None
  end.

(** Whether [<-ctx.Done()] is ready at time [now]. *)
Definition Done (ctx : Context) (now : Time) : bool :=
  match Err_ ctx now with Some _ => true | None => false end.

Definition errorOf (r : ctxError) : error :=
  match r with
  | Canceled => errorString "context canceled"
  | DeadlineExceeded => errorString "context deadline exceeded"
  end.

End context.

(** ** The data model of main.go *)

Record DefaultEmail : Type := mkDefaultEmail { EmailAddress : string }.

Record MonetaryAmount : Type :=
  mkMonetaryAmount { Amount : decimal.Decimal; CurrencyCode : string }.

Record Node : Type := mkNode {
  ID : string;
  DisplayName : string;
  DefaultEmailAddress : option DefaultEmail;
  AmountSpent : MonetaryAmount
}.

Record CustomerSegmentMember : Type := mkMember { node : Node }.

Record GraphQLError : Type := mkGraphQLError { Message : string }.

(** [Edges] stands for [Data.CustomerSegmentMembers.Edges]. *)
Record GraphQLResponse : Type := mkResponse {
  Edges : list CustomerSegmentMember;
  Errors : list GraphQLError
}.

(** The dynamic values the program stores in [map[string]interface{}]. *)
Inductive Value : Type :=
| VInt (n : Z)
| VString (s : string)
| VBool (b : bool).

Record GraphQLRequest : Type := mkRequest {
  Query : string;
  Variables : gmap string Value
}.

(** ** urfave/cli: the flags of the invocation *)

Module cli.
Record Context : Type := mkContext {
  Int : string -> Z;
  String : string -> string;
  Bool : string -> bool
}.
End cli.


(** ** Slices of a byte string *)

(** [s[:n]] *)
Fixpoint sliceTo (n : nat) (s : string) : string :=
  match n, s with
  | S n', String c s' => String c (sliceTo n' s')
  | _, _ => EmptyString
  end.

(** [s[n:]] *)
Fixpoint sliceFrom (n : nat) (s : string) : string :=
  match n, s with
  | S n', String c s' => sliceFrom n' s'
  | _, _ => s
  end.

(** ** net/http

    The remote server and the network are an oracle; [Do] is a model of one
    call of [http.Client.Do] from the documentation of [net/http] and
    [context].  The oracle gives the final outcome of the call: redirects
    that the client follows inside the call are not told apart. *)

Module http.

Definition StatusOK : Z := 200.

Record Request : Type := mkRequest {
  Method : string;
  URL : string;
  Header : gmap string string;
  Body : string;
  Ctx : context.Context
}.

(** A response body is a stream.  A reader that nothing cuts is done with
    it [duration] after the headers ([io.ReadAll] at the end of the stream,
    the JSON decoder at the end of the value) and has then got [data],
    followed by the end of file or by the read error [readErr]; a reader
    whose stream is cut before that has got [partial]. *)
Record ReadCloser : Type := mkBody {
  data : string;
  readErr : option error;
  duration : Time;
  partial : string
}.

Record Response : Type := mkResponse { StatusCode : Z; RespBody : ReadCloser }.

(** What the remote side does with a request, and after how long the
    headers of its answer are there. *)
Inductive Outcome : Type :=
| Reply (delay : Time) (resp : Response)
| Fail (delay : Time) (err : error).

Definition delayOf (o : Outcome) : Time :=
  match o with Reply d _ => d | Fail d _ => d end.

(** What ends a call before the remote side is done: the context of the
    request, or the timer of the client. *)
Inductive Cut : Type :=
| ByContext (r : context.ctxError)
| ByTimer.

(** The instant at which a call started at [now] by a client with
    [Timeout = timeout] is cut, and by what: by the context if it ends no
    later than the timer, else by the timer. *)
Definition cutOf (timeout : Time) (ctx : context.Context) (now : Time) : Time * Cut :=
  let tCli := (now + timeout)%N in
  match context.doneAt ctx with
  | Some tCtx =>
      if (tCtx <=? tCli)%N then (N.max now tCtx, ByContext (context.reason ctx))
      else (tCli, ByTimer)
  | None => (tCli, ByTimer)
  end.

(** The error of a call cut while it waits for the headers. *)
Definition awaitingHeaders (why : Cut) : error :=
  match why with
  | ByContext r => context.errorOf r
  | ByTimer =>
      errorString
        "context deadline exceeded (Client.Timeout exceeded while awaiting headers)"
  end.

(** The error of a read of the body that is cut. *)
Definition readingBody (why : Cut) : error :=
  match why with
  | ByContext r => context.errorOf r
  | ByTimer =>
      errorString
        "context deadline exceeded (Client.Timeout or context cancellation while reading body)"
  end.

Definition toLower (c : ascii) : ascii :=
  let n := nat_of_ascii c in
  if ((65 <=? n) && (n <=? 90))%nat then ascii_of_nat (n + 32) else c.

Fixpoint lower (s : string) : string :=
  match s with
  | EmptyString => EmptyString
  | String c s' => String (toLower c) (lower s')
  end.

(** [urlErrorOp]: the method with its first letter kept and the others in
    lower case. *)
Definition urlErrorOp (method : string) : string :=
  match method with
  | EmptyString => "Get"
  | String c rest => String c (lower rest)
  end.

(** The [*url.Error] every failure of [Do] is wrapped in; its message is
    the operation, the quoted URL, a colon and the cause.  The URL is taken
    to need no escapes inside the quotes. *)
Definition urlError (method url : string) (cause : error) : error :=
  wrapError
    (urlErrorOp method +:+ " " +:+ String "034" (url +:+ String "034" ": "))
    cause.

(** The body as a reader will see it when the stream is cut [left] after
    the headers: the whole body if it has arrived before, else what has
    arrived and the error of the cut. *)
Definition cutBody (why : Cut) (left : Time) (b : ReadCloser) : ReadCloser :=
  if (duration b <? left)%N then b
  else mkBody (partial b) (Some (readingBody why)) left (partial b).

(** [client.Do(req)] at time [now] for a client with [Timeout = timeout]:
    the outcome of the network if it is there strictly before the call is
    cut, else the error of the cut, at that instant.  The context and the
    timer go on counting while the body of a response is read.  Returns
    the time of return. *)
Definition Do (timeout : Time) (network : Request -> Outcome)
    (req : Request) (now : Time) : Time * result Response :=
  let out := network req in
  let tNet := (now + delayOf out)%N in
  let '(tCut, why) := cutOf timeout (Ctx req) now in
  if (tNet <? tCut)%N
  then
    match out with
    | Reply _ r =>
        (tNet, Ok (mkResponse (StatusCode r) (cutBody why (tCut - tNet)%N (RespBody r))))
    | Fail _ e => (tNet, Err (urlError (Method req) (URL req) e))
    end
  else (tCut, Err (urlError (Method req) (URL req) (awaitingHeaders why))).

(** [io.ReadAll(resp.Body)]: the bytes read and the error that ended the
    reading, if any. *)
Definition ReadAll (b : ReadCloser) : string * option error :=
  (data b, readErr b).

End http.

(** ** The environment and the observable world *)

(** Everything outside the program: the process environment, the JSON
    codec, the remote server and the faults of the operating system.
    [Decode] is [json.NewDecoder(body).Decode]: it sees the stream, bytes
    and read error.  [writeTime k] is the time the [k]-th call of
    [csv.Writer.Write] takes.  [devErr k = Some (n, e)] says that the
    [k]-th write the buffered writer makes to its file fails with [e] after
    [n] bytes, and [printErr = Some n] that the write [fmt.Printf] makes to
    the standard output fails after [n] bytes. *)
Record Env : Type := mkEnv {
  Getenv : string -> string;
  Marshal : GraphQLRequest -> result string;
  NewRequestErr : string -> option error;
  network : http.Request -> http.Outcome;
  Decode : http.ReadCloser -> result GraphQLResponse;
  CreateErr : string -> option error;
  writeTime : nat -> Time;
  devErr : nat -> option (nat * error);
  printErr : option nat
}.

(** The calls that reach the outside, in order. *)
Inductive Event : Type :=
| EvDo (req : http.Request)
| EvReadAll
| EvDecode
| EvCreate (filename : string)
| EvWrite (record : list string)
| EvFlush
| EvClose (filename : string)
| EvPrintf (msg : string).

Record World : Type := mkWorld {
  now : Time;
  files : gmap string string;
  stdout : string;
  log : list Event
}.

Definition emit (ev : Event) (w : World) : World :=
  mkWorld (now w) (files w) (stdout w) (log w ++ [ev]).

Definition setNow (t : Time) (w : World) : World :=
  mkWorld t (files w) (stdout w) (log w).

Definition tick (d : Time) (w : World) : World :=
  setNow (now w + d)%N w.
(** ** unicode/utf8 and unicode: what [csv.Writer] asks of a field *)

Module utf8.

Definition RuneError : Z := 65533.

Definition byte (c : ascii) : Z := Z.of_nat (nat_of_ascii c).

Definition between (lo b hi : Z) : bool := (lo <=? b) && (b <=? hi).

(** [utf8.DecodeRuneInString]: the first rune of [s]; [RuneError] for the
    empty string and for an invalid or incomplete encoding. *)
Definition DecodeRuneInString (s : string) : Z :=
  match s with
  | EmptyString => RuneError
  | String c0 s1 =>
      let b0 := byte c0 in
      if b0 <? 128 then b0
      else if between 194 b0 223 then
        match s1 with
        | String c1 _ =>
            if between 128 (byte c1) 191
            then (b0 - 192) * 64 + (byte c1 - 128)
            else RuneError
        | _ => RuneError
        end
      else if between 224 b0 239 then
        match s1 with
        | String c1 (String c2 _) =>
            let lo := if b0 =? 224 then 160 else 128 in
            let hi := if b0 =? 237 then 159 else 191 in
            if between lo (byte c1) hi && between 128 (byte c2) 191
            then (b0 - 224) * 4096 + (byte c1 - 128) * 64 + (byte c2 - 128)
            else RuneError
        | _ => RuneError
        end
      else if between 240 b0 244 then
        match s1 with
        | String c1 (String c2 (String c3 _)) =>
            let lo := if b0 =? 240 then 144 else 128 in
            let hi := if b0 =? 244 then 143 else 191 in
            if between lo (byte c1) hi && between 128 (byte c2) 191
               && between 128 (byte c3) 191
            then (b0 - 240) * 262144 + (byte c1 - 128) * 4096
                 + (byte c2 - 128) * 64 + (byte c3 - 128)
            else RuneError
        | _ => RuneError
        end
      else RuneError
  end.

(** [unicode.IsSpace]: the Latin-1 cases, then the White_Space table. *)
Definition IsSpace (r : Z) : bool :=
  if r <=? 255
  then between 9 r 13 || (r =? 32) || (r =? 133) || (r =? 160)
  else (r =? 5760) || between 8192 r 8202 || between 8232 r 8233
       || (r =? 8239) || (r =? 8287) || (r =? 12288).

End utf8.


(** ** os: files *)

Module os.

(** An open [*os.File]: the standard output, or a file of the disk by its
    name. *)
Inductive File : Type :=
| Stdout
| Named (name : string).

(** Appending bytes to a file. *)
Definition append (f : File) (bytes : string) (s : World) : World :=
  match f with
  | Stdout => mkWorld (now s) (files s) (stdout s +:+ bytes) (log s)
  | Named name =>
      mkWorld (now s)
        (<[name := default EmptyString (files s !! name) +:+ bytes]> (files s))
        (stdout s) (log s)
  end.

(** [f.Write(p)], the [k]-th write its buffered writer makes: all of [p]
    is appended, or the device fails after some of it.  Returns the number
    of bytes written and the error. *)
Definition Write (env : Env) (f : File) (k : nat) (p : string) (s : World)
    : World * nat * option error :=
  match devErr env k with
  | None => (append f p s, String.length p, None)
  | Some (n, e) =>
      let m := Nat.min n (String.length p) in
      (append f (sliceTo m p) s, m, Some e)
  end.

(** [os.Create(name)]: fails as the environment says, else the file exists
    afterwards and is empty. *)
Definition Create (env : Env) (name : string) (s : World) : World * result File :=
  let s1 := emit (EvCreate name) s in
  match CreateErr env name with
  | Some e => (s1, Err e)
  | None =>
      (mkWorld (now s1) (<[name := EmptyString]> (files s1)) (stdout s1) (log s1),
       Ok (Named name))
  end.

(** [file.Close()] *)
Definition Close (name : string) (s : World) : World := emit (EvClose name) s.

End os.

(** ** bufio: the buffered writer under [csv.Writer]

    [Flush], [WriteString] and [WriteByte] follow [bufio.go] of Go's
    standard library.  The loop of [WriteString] runs at most twice, since
    the buffer is empty after a flush; it is written out here.  Both
    destinations of the program are [*os.File], which has a [WriteString]
    of its own: a string larger than the empty buffer is handed to the file
    directly. *)

Module bufio.

Definition defaultBufSize : nat := 4096.

Definition ErrShortWrite : error := errorString "short write".

(** The file written to, the size of the buffer, the bytes held in it, the
    sticky error, and the number of writes made to the file so far. *)
Record Writer : Type := mkWriter {
  wr : os.File;
  size : nat;
  buf : string;
  err : option error;
  nwr : nat
}.

Definition NewWriter (f : os.File) : Writer :=
  mkWriter f defaultBufSize EmptyString None 0.

Definition Buffered (b : Writer) : nat := String.length (buf b).

Definition Available (b : Writer) : nat := (size b - String.length (buf b))%nat.

(** [copy(b.buf[b.n:], p)] for a [p] that fits. *)
Definition store (b : Writer) (p : string) : Writer :=
  mkWriter (wr b) (size b) (buf b +:+ p) (err b) (nwr b).

(** [b.Flush()] *)
Definition Flush (env : Env) (b : Writer) (s : World) : Writer * World * option error :=
  match err b with
  | Some e => (b, s, Some e)
  | None =>
      if (Buffered b =? 0)%nat then (b, s, None)
      else
        let '(s1, n, e) := os.Write env (wr b) (nwr b) (buf b) s in
        let e := match e with
                 | None => if (n <? Buffered b)%nat then Some ErrShortWrite else None
                 | Some e => Some e
                 end in
        match e with
        | Some e =>
            (mkWriter (wr b) (size b) (sliceFrom n (buf b)) (Some e) (S (nwr b)),
             s1, Some e)
        | None => (mkWriter (wr b) (size b) EmptyString None (S (nwr b)), s1, None)
        end
  end.

(** The large write of [WriteString] that goes to the file directly. *)
Definition forward (env : Env) (b : Writer) (p : string) (s : World)
    : Writer * World * option error :=
  let '(s1, _, e) := os.Write env (wr b) (nwr b) p s in
  (mkWriter (wr b) (size b) (buf b) e (S (nwr b)), s1, e).

(** [b.WriteString(p)] *)
Definition WriteString (env : Env) (b : Writer) (p : string) (s : World)
    : Writer * World * option error :=
  match err b with
  | Some e => (b, s, Some e)
  | None =>
      if (String.length p <=? Available b)%nat then (store b p, s, None)
      else if (Buffered b =? 0)%nat then forward env b p s
      else
        let n := Available b in
        let '(b1, s1, e) := Flush env (store b (sliceTo n p)) s in
        match e with
        | Some e => (b1, s1, Some e)
        | None =>
            let rest := sliceFrom n p in
            if (String.length rest <=? Available b1)%nat
            then (store b1 rest, s1, None)
            else forward env b1 rest s1
        end
  end.

(** [b.WriteByte(c)] *)
Definition WriteByte (env : Env) (b : Writer) (c : ascii) (s : World)
    : Writer * World * option error :=
  match err b with
  | Some e => (b, s, Some e)
  | None =>
      if (Available b <=? 0)%nat
      then
        let '(b1, s1, e) := Flush env b s in
        match e with
        | Some e => (b1, s1, Some e)
        | None => (store b1 (String c EmptyString), s1, None)
        end
      else (store b (String c EmptyString), s, None)
  end.

End bufio.

(** ** encoding/csv: the writer

    [fieldNeedsQuotes], [Write] and [Flush] follow [writer.go] of Go's
    standard library for a writer made by [csv.NewWriter] (comma separator,
    line-feed record ends). *)

Module csv.

Definition Quote : ascii := "034"%char.
Definition Comma : ascii := ","%char.
Definition LF : ascii := "010"%char.
Definition CR : ascii := "013"%char.

Definition isChar (a c : ascii) : bool :=
  if ascii_dec a c then true else false.

Fixpoint containsAny (field : string) (p : ascii -> bool) : bool :=
  match field with
  | EmptyString => false
  | String c rest => p c || containsAny rest p
  end.

Definition special (c : ascii) : bool :=
  isChar LF c || isChar CR c || isChar Quote c || isChar Comma c.

(** [Writer.fieldNeedsQuotes] for the default comma. *)
Definition fieldNeedsQuotes (field : string) : bool :=
  if String.eqb field "" then false
  else if String.eqb field "\." then true
  else if containsAny field special then true
  else utf8.IsSpace (utf8.DecodeRuneInString field).

(** A call [Write] makes on its buffered writer. *)
Inductive Op : Type :=
| OpByte (c : ascii)
| OpString (p : string).

(** The calls for the inside of a quoted field: each run of bytes up to
    the next quote, carriage return or line feed goes out in one
    [WriteString], even an empty one; then a quote is written doubled; with
    [UseCRLF] a carriage return is dropped and a line feed becomes CR LF.
    [run] is the run read so far. *)
Fixpoint quotedOps (useCRLF : bool) (run field : string) : list Op :=
  match field with
  | EmptyString =>
      if String.eqb run "" then [] else [OpString run]
  | String c rest =>
      if isChar Quote c
      then OpString run :: OpString (String Quote (String Quote EmptyString))
           :: quotedOps useCRLF EmptyString rest
      else if isChar CR c
      then OpString run
           :: (if useCRLF then [] else [OpByte CR])
           ++ quotedOps useCRLF EmptyString rest
      else if isChar LF c
      then OpString run
           :: (if useCRLF then OpString (String CR (String LF EmptyString))
               else OpByte LF)
           :: quotedOps useCRLF EmptyString rest
      else quotedOps useCRLF (run +:+ String c EmptyString) rest
  end.

Definition fieldOps (useCRLF : bool) (field : string) : list Op :=
  if fieldNeedsQuotes field
  then OpByte Quote :: quotedOps useCRLF EmptyString field ++ [OpByte Quote]
  else [OpString field].

(** The fields of a record after the first: each preceded by a comma. *)
Fixpoint tailOps (useCRLF : bool) (fields : list string) : list Op :=
  match fields with
  | [] => []
  | f :: fs => OpByte Comma :: fieldOps useCRLF f ++ tailOps useCRLF fs
  end.

(** The calls of [Write(record)], in order. *)
Definition recordOps (useCRLF : bool) (record : list string) : list Op :=
  match record with
  | [] => []
  | f :: fs => fieldOps useCRLF f ++ tailOps useCRLF fs
  end
  ++ [if useCRLF then OpString (String CR (String LF EmptyString)) else OpByte LF].

Definition runOp (env : Env) (o : Op) (b : bufio.Writer) (s : World)
    : bufio.Writer * World * option error :=
  match o with
  | OpByte c => bufio.WriteByte env b c s
  | OpString p => bufio.WriteString env b p s
  end.

(** The calls are made one after the other; the first error ends them. *)
Fixpoint runOps (env : Env) (ops : list Op) (b : bufio.Writer) (s : World)
    : bufio.Writer * World * option error :=
  match ops with
  | [] => (b, s, None)
  | o :: rest =>
      match runOp env o b s with
      | (b1, s1, Some e) => (b1, s1, Some e)
      | (b1, s1, None) => runOps env rest b1 s1
      end
  end.

(** A [csv.Writer]: its buffered writer and the number of [Write] calls so
    far. *)
Record Writer : Type := mkWriter {
  UseCRLF : bool;
  w : bufio.Writer;
  nwrites : nat
}.

Definition NewWriter (f : os.File) : Writer := mkWriter false (bufio.NewWriter f) 0.

(** [w.Write(record)]: the call takes [writeTime]. *)
Definition Write (env : Env) (cw : Writer) (record : list string) (s : World)
    : Writer * World * option error :=
  let k := nwrites cw in
  let s1 := emit (EvWrite record) (tick (writeTime env k) s) in
  let '(b, s2, e) := runOps env (recordOps (UseCRLF cw) record) (w cw) s1 in
  (mkWriter (UseCRLF cw) b (S k), s2, e).

(** [w.Flush()]: flushes the buffered writer and reports nothing to the
    caller. *)
Definition Flush (env : Env) (cw : Writer) (s : World) : World :=
  (bufio.Flush env (w cw) (emit EvFlush s)).1.2.

(** The bytes of a field as [Write] hands them to the buffered writer, all
    its calls taken together: the body of a quoted field, *)
Fixpoint quoteBody (useCRLF : bool) (field : string) : string :=
  match field with
  | EmptyString => EmptyString
  | String c rest =>
      if isChar Quote c then String Quote (String Quote (quoteBody useCRLF rest))
      else if isChar CR c then
        if useCRLF then quoteBody useCRLF rest
        else String CR (quoteBody useCRLF rest)
      else if isChar LF c then
        if useCRLF then String CR (String LF (quoteBody useCRLF rest))
        else String LF (quoteBody useCRLF rest)
      else String c (quoteBody useCRLF rest)
  end.

(** a field, *)
Definition writeField (useCRLF : bool) (field : string) : string :=
  if fieldNeedsQuotes field
  then String Quote (quoteBody useCRLF field +:+ String Quote EmptyString)
  else field.

(** the fields after the first, *)
Fixpoint writeTail (useCRLF : bool) (fields : list string) : string :=
  match fields with
  | [] => EmptyString
  | f :: fs => String Comma (writeField useCRLF f +:+ writeTail useCRLF fs)
  end.

(** and a record. *)
Definition writeRecord (useCRLF : bool) (record : list string) : string :=
  match record with
  | [] => EmptyString
  | f :: fs => writeField useCRLF f +:+ writeTail useCRLF fs
  end +:+ (if useCRLF then String CR (String LF EmptyString)
           else String LF EmptyString).

(** *** The reader

    [Reader.ReadAll] of [reader.go] for a reader made by [csv.NewReader]
    (comma, no comment character, no lazy quotes, no trimming, the number
    of fields fixed by the first record).  The library reads line by line;
    [read] is the same pass over the bytes, one byte at a time: [readLine]
    turns a CR LF line end into LF, also in a line that continues a quoted
    field, and drops a carriage return that ends the input; [readRecord]
    skips empty lines, refuses a quote inside a field that did not start
    with one, and after the closing quote of a field accepts only another
    quote, a comma or the line end. *)

Inductive rstate : Type := LineStart | FieldStart | Unquoted | Quoted | QuoteSeen.

(** The end of the input. *)
Definition atEOF (st : rstate) (field : string) (row : list string)
    : option (list (list string)) :=
  match st with
  | LineStart => Some []
  | Quoted => None
  | FieldStart => Some [row ++ [EmptyString]]
  | Unquoted | QuoteSeen => Some [row ++ [field]]
  end.

(** A byte that is no line end: the state, the field and the row after it,
    or [None] for [ErrBareQuote] and [ErrQuote]. *)
Definition step (st : rstate) (field : string) (row : list string) (c : ascii)
    : option (rstate * string * list string) :=
  match st with
  | LineStart | FieldStart =>
      if isChar Quote c then Some (Quoted, EmptyString, row)
      else if isChar Comma c then Some (FieldStart, EmptyString, row ++ [EmptyString])
      else Some (Unquoted, String c EmptyString, row)
  | Unquoted =>
      if isChar Quote c then None
      else if isChar Comma c then Some (FieldStart, EmptyString, row ++ [field])
      else Some (Unquoted, field +:+ String c EmptyString, row)
  | Quoted =>
      if isChar Quote c then Some (QuoteSeen, field, row)
      else Some (Quoted, field +:+ String c EmptyString, row)
  | QuoteSeen =>
      if isChar Quote c then Some (Quoted, field +:+ String Quote EmptyString, row)
      else if isChar Comma c then Some (FieldStart, EmptyString, row ++ [field])
      else None
  end.

Fixpoint read (st : rstate) (field : string) (row : list string) (s : string)
    {struct s} : option (list (list string)) :=
  match s with
  | EmptyString => atEOF st field row
  | String c s' =>
      if isChar LF c then
        match st with
        | LineStart => read LineStart EmptyString [] s'
        | FieldStart => cons (row ++ [EmptyString]) <$> read LineStart EmptyString [] s'
        | Unquoted | QuoteSeen => cons (row ++ [field]) <$> read LineStart EmptyString [] s'
        | Quoted => read Quoted (field +:+ String LF EmptyString) row s'
        end
      else if isChar CR c then
        match s' with
        | EmptyString => atEOF st field row
        | String c' s'' =>
            if isChar LF c' then
              match st with
              | LineStart => read LineStart EmptyString [] s''
              | FieldStart =>
                  cons (row ++ [EmptyString]) <$> read LineStart EmptyString [] s''
              | Unquoted | QuoteSeen =>
                  cons (row ++ [field]) <$> read LineStart EmptyString [] s''
              | Quoted => read Quoted (field +:+ String LF EmptyString) row s''
              end
            else
              match step st field row c with
              | Some (st1, field1, row1) => read st1 field1 row1 s'
              | None => None
              end
        end
      else
        match step st field row c with
        | Some (st1, field1, row1) => read st1 field1 row1 s'
        | None => None
        end
  end.

(** Whether every record has as many fields as the first. *)
Definition sameFieldCount (records : list (list string)) : bool :=
  match records with
  | [] => true
  | r :: rest => forallb (λ r', (length r' =? length r)%nat) rest
  end.

(** [csv.NewReader(r).ReadAll()]: the records, or [None] for an error. *)
Definition ReadAll (s : string) : option (list (list string)) :=
  match read LineStart EmptyString [] s with
  | Some records => if sameFieldCount records then Some records else None
  | None => None
  end.

End csv.

Module fmt.

(** [%v] of a [[]GraphQLError]: each struct in braces, the slice in
    brackets, elements separated by a space. *)
Fixpoint joinErrors (errs : list GraphQLError) : string :=
  match errs with
  | [] => EmptyString
  | [e] => "{" +:+ Message e +:+ "}"
  | e :: rest => "{" +:+ Message e +:+ "} " +:+ joinErrors rest
  end.

Definition vErrors (errs : list GraphQLError) : string :=
  "[" +:+ joinErrors errs +:+ "]".

(** [fmt.Printf] writes to the standard output; its caller does not look
    at the error (line 134), so a write that fails leaves a part of the
    message and nothing else to tell. *)
Definition Printf (env : Env) (msg : string) (s : World) : World :=
  let written :=
    match printErr env with
    | None => msg
    | Some n => sliceTo n msg
    end in
  emit (EvPrintf msg) (mkWorld (now s) (files s) (stdout s +:+ written) (log s)).

End fmt.

(** ** main.go *)

(** The variables of the request, from the flags (lines 92-97). *)
Definition variables (c : cli.Context) : gmap string Value :=
  <["first" := VInt (cli.Int c "first")]>
  (<["query" := VString (cli.String c "query")]>
  (<["sortKey" := VString (cli.String c "sortKey")]>
  (<["reverse" := VBool (cli.Bool c "reverse")]> ∅))).

(** The fixed GraphQL document (lines 99-116). *)
Definition query : string := "
	query GetCustomerSegmentMembers($first: Int!, $query: String!, $sortKey: String, $reverse: Boolean!) {
		customerSegmentMembers(first: $first, query: $query, sortKey: $sortKey, reverse: $reverse) {
			edges {
				node {
					id
					displayName
					defaultEmailAddress {
						emailAddress
					}
					amountSpent {
						amount
						currencyCode
					}
				}
			}
		}
	}".

Definition timeoutMessage : string := "operation timed out after 5 seconds".
Definition exportTimeoutMessage : string := "operation timed out during CSV export".

(** Line 139: the endpoint. *)
Definition apiURL (domain : string) : string :=
  "https://" +:+ domain +:+ "/admin/api/2025-01/graphql.json".

(** Lines 146-151: the request and its two headers. *)
Definition apiRequest (ctx : context.Context) (domain accessToken body : string)
    : http.Request :=
  http.mkRequest "POST" (apiURL domain)
    (<["X-Shopify-Access-Token" := accessToken]>
       (<["Content-Type" := "application/json"]> ∅))
    body ctx.

(** [executeGraphQLQuery] (lines 138-174).  The clock of the world moves to
    the instant [client.Do] returns, and then by the time the reader of the
    body takes: [io.ReadAll] to the end of the stream, the decoder to the
    end of the JSON value, either of them to the instant the stream is cut
    if that comes first.  The deferred [resp.Body.Close()] has no effect
    the world records. *)
Definition executeGraphQLQuery (env : Env) (ctx : context.Context)
    (domain accessToken : string) (request : GraphQLRequest) (s : World)
    : World * result GraphQLResponse :=
  match Marshal env request with
  | Err err => (s, Err (wrapError "failed to marshal request: " err))
  | Ok body =>
      match NewRequestErr env (apiURL domain) with
      | Some err => (s, Err (wrapError "failed to create request: " err))
      | None =>
          let req := apiRequest ctx domain accessToken body in
          let '(t, r) := http.Do 5000%N (network env) req (now s) in
          let s1 := emit (EvDo req) (setNow t s) in
          match r with
          | Err err =>
              match context.Err_ ctx (now s1) with
              | Some context.DeadlineExceeded =>
                  (s1, Err (errorString timeoutMessage))
              | _ => (s1, Err (wrapError "HTTP request failed: " err))
              end
          | Ok resp =>
              if negb (http.StatusCode resp =? http.StatusOK)
              then
                let s2 := emit EvReadAll (tick (http.duration (http.RespBody resp)) s1) in
                let b := fst (http.ReadAll (http.RespBody resp)) in
                (s2, Err (errorString
                            ("HTTP " +:+ itoa (http.StatusCode resp) +:+ ": " +:+ b)))
              else
                let s2 := emit EvDecode (tick (http.duration (http.RespBody resp)) s1) in
                match Decode env (http.RespBody resp) with
                | Err err => (s2, Err (wrapError "failed to decode response: " err))
                | Ok graphqlResp => (s2, Ok graphqlResp)
                end
          end
      end
  end.

Definition header : list string :=
  ["ID"; "Display Name"; "Email Address"; "Amount Spent"; "Currency Code"].

(** The record written for one customer (lines 203-213). *)
Definition recordOf (c : CustomerSegmentMember) : list string :=
  let email :=
    match DefaultEmailAddress (node c) with
    | Some e => EmailAddress e
    | None => EmptyString
    end in
  [ ID (node c);
    DisplayName (node c);
    email;
    decimal.StringFixed (Amount (AmountSpent (node c))) 2;
    CurrencyCode (AmountSpent (node c)) ].

(** The loop over the customers (lines 198-218). *)
Fixpoint exportRows (env : Env) (ctx : context.Context)
    (customers : list CustomerSegmentMember) (writer : csv.Writer) (s : World)
    : csv.Writer * World * option error :=
  match customers with
  | [] => (writer, s, None)
  | c :: rest =>
      if context.Done ctx (now s)
      then (writer, s, Some (errorString exportTimeoutMessage))
      else
        match csv.Write env writer (recordOf c) s with
        | (writer1, s1, Some err) => (writer1, s1, Some err)
        | (writer1, s1, None) => exportRows env ctx rest writer1 s1
        end
  end.

(** Lines 193-219: the header, then the loop. *)
Definition exportBody (env : Env) (ctx : context.Context)
    (customers : list CustomerSegmentMember) (writer : csv.Writer) (s : World)
    : csv.Writer * World * option error :=
  match csv.Write env writer header s with
  | (writer1, s1, Some err) => (writer1, s1, Some err)
  | (writer1, s1, None) => exportRows env ctx customers writer1 s1
  end.

(** [exportToCSV] (lines 176-220); the deferred [writer.Flush()] and
    [file.Close()] run on every return after they are registered, the flush
    first.  Neither can change what is returned: an error of the flush is
    not looked at. *)
Definition exportToCSV (env : Env) (ctx : context.Context)
    (customers : list CustomerSegmentMember) (filename : string) (s : World)
    : World * option error :=
  if String.eqb filename ""
  then
    let '(writer, s1, err) :=
      exportBody env ctx customers (csv.NewWriter os.Stdout) s in
    (csv.Flush env writer s1, err)
  else
    match os.Create env filename s with
    | (s0, Err err) => (s0, Some err)
    | (s0, Ok file) =>
        let '(writer, s1, err) :=
          exportBody env ctx customers (csv.NewWriter file) s0 in
        (os.Close filename (csv.Flush env writer s1), err)
    end.

Definition successMessage (n : nat) (output : string) : string :=
  "Successfully exported " +:+ itoa (Z.of_nat n) +:+ " customers to "
  +:+ output +:+ String csv.LF EmptyString.

(** [fetchAndExportCustomers] (lines 85-136). *)
Definition fetchAndExportCustomers (env : Env) (ctx : context.Context)
    (c : cli.Context) (s : World) : World * option error :=
  let shopifyDomain := Getenv env "SHOPIFY_DOMAIN" in
  let accessToken := Getenv env "SHOPIFY_ACCESS_TOKEN" in
  if String.eqb shopifyDomain "" || String.eqb accessToken ""
  then (s, Some (errorString "SHOPIFY_DOMAIN and SHOPIFY_ACCESS_TOKEN must be set"))
  else
    match executeGraphQLQuery env ctx shopifyDomain accessToken
            (mkRequest query (variables c)) s with
    | (s1, Err err) => (s1, Some (wrapError "GraphQL query failed: " err))
    | (s1, Ok resp) =>
        if (0 <? length (Errors resp))%nat
        then (s1, Some (errorString ("GraphQL errors: " +:+ fmt.vErrors (Errors resp))))
        else
          match exportToCSV env ctx (Edges resp) (cli.String c "output") s1 with
          | (s2, Some err) => (s2, Some (wrapError "failed to export CSV: " err))
          | (s2, None) =>
              (fmt.Printf env
                 (successMessage (length (Edges resp)) (cli.String c "output")) s2,
               None)
          end
    end.

(** The [Action] of the command (lines 72-77): a five-second deadline from
    the start of the invocation. *)
Definition Action (env : Env) (c : cli.Context) (s : World) : World * option error :=
  let ctx := context.WithTimeout (now s) 5000%N in
  fetchAndExportCustomers env ctx c s.

(** ** Reading a fixed-point string back *)

(** Splits a string at its first point. *)
Fixpoint splitDot (s : string) : option (string * string) :=
  match s with
  | EmptyString => None
  | String c r =>
      if Ascii.eqb c "." then Some (EmptyString, r)
      else match splitDot r with
           | Some (a, b) => Some (String c a, b)
           | None => None
           end
  end.

(** Takes a leading minus sign off. *)
Definition unsign (s : string) : bool * string :=
  match s with
  | String c r => if Ascii.eqb c "-" then (true, r) else (false, s)
  | EmptyString => (false, s)
  end.

(** [s] is an optional minus sign, at least one digit, a point and exactly
    [places] digits. *)
Definition isFixed (places : nat) (s : string) : bool :=
  match splitDot (snd (unsign s)) with
  | Some (ip, fp) =>
      allDigits ip && negb (String.eqb ip "") && allDigits fp
      && (String.length fp =? places)%nat
  | None => false
  end.

(** The number a string of decimal digits denotes. *)
Definition digitsVal (s : string) : Z :=
  match NilEmpty.uint_of_string s with
  | Some u => Z.of_uint u
  | None => 0
  end.

(** The integer a fixed-point string denotes once the point is left out:
    the number of hundredths for a two-place string. *)
Definition readFixed (s : string) : option Z :=
  match splitDot (snd (unsign s)) with
  | Some (ip, fp) =>
      let n := digitsVal (ip +:+ fp) in
      Some (if fst (unsign s) then - n else n)
  | None => None
  end.

(** The bytes of a sequence of records written one after the other. *)
Definition writeAll (useCRLF : bool) (records : list (list string)) : string :=
  fold_right (λ r acc, csv.writeRecord useCRLF r +:+ acc) EmptyString records.

(** [Round]'s last step on a value already cut to one digit too many. *)
Definition roundLast (t : Z) : Z :=
  let v := if t <? 0 then t - 5 else t + 5 in
  let q := v / 10 in
  if (q <? 0) && negb (v mod 10 =? 0) then q + 1 else q.

(** The characters of a fixed-point string need no quoting. *)
Definition plainChar (c : ascii) : bool :=
  isDigit c || csv.isChar "-" c || csv.isChar "." c.

Fixpoint allPlain (s : string) : bool :=
  match s with
  | EmptyString => true
  | String c s' => plainChar c && allPlain s'
  end.

(** ** Observations on a run *)

(** The bytes an export from world [s] to world [s'] left at its
    destination: the whole file, or what was added to the standard output. *)
Definition delivered (filename : string) (s s' : World) (bytes : string) : Prop :=
  if String.eqb filename ""
  then stdout s' = stdout s +:+ bytes
  else files s' !! filename = Some bytes.

(** The calls only the exporter makes. *)
Definition isExportEvent (ev : Event) : bool :=
  match ev with
  | EvCreate _ | EvWrite _ | EvFlush | EvClose _ => true
  | _ => false
  end.


(** A failure of [fetchAndExportCustomers] that is not a failure of the
    export step. *)
Definition beforeExport (e : error) : bool :=
  match e with
  | errorString _ => true
  | wrapError prefix _ => negb (String.eqb prefix "failed to export CSV: ")
  end.

(** The email of a record as the data model has it. *)
Definition emailOf (c : CustomerSegmentMember) : option string :=
  EmailAddress <$> DefaultEmailAddress (node c).

(** The header row as text. *)
Definition headerLine : string :=
  "ID,Display Name,Email Address,Amount Spent,Currency Code"
  +:+ String csv.LF EmptyString.

(** ** Sample runs *)

Definition sampleFlags : cli.Context :=
  cli.mkContext
    (λ name, if String.eqb name "first" then 50 else 0)
    (λ name,
       if String.eqb name "query" then "customer_tags CONTAINS 'task1'"
       else if String.eqb name "sortKey" then "amount_spent"
       else if String.eqb name "output" then "customers.csv"
       else EmptyString)
    (λ name, String.eqb name "reverse").

Definition sampleEnv (out : http.Outcome) (dec : result GraphQLResponse) : Env :=
  mkEnv
    (λ name,
       if String.eqb name "SHOPIFY_DOMAIN" then "example.myshopify.com"
       else if String.eqb name "SHOPIFY_ACCESS_TOKEN" then "shpat_0"
       else EmptyString)
    (λ _, Ok "{}")
    (λ _, None)
    (λ _, out)
    (λ _, dec)
    (λ _, None)
    (λ _, 1%N)
    (λ _, None)
    None.

Definition noConfigEnv : Env :=
  mkEnv (λ _, EmptyString) (λ _, Ok "{}") (λ _, None)
    (λ _, http.Fail 0%N (errorString "unreachable"))
    (λ _, Err (errorString "unreachable")) (λ _, None) (λ _, 1%N) (λ _, None) None.

Definition world0 : World := mkWorld 0%N ∅ EmptyString [].

Definition jane : CustomerSegmentMember :=
  mkMember (mkNode "gid://1" "Jane Doe" None
              (mkMonetaryAmount (decimal.mkDecimal 100 0) "USD")).

Definition john : CustomerSegmentMember :=
  mkMember (mkNode "gid://2" "Doe, John" (Some (mkDefaultEmail "john@example.com"))
              (mkMonetaryAmount (decimal.mkDecimal 12345 (-3)) "CAD")).

(** A record whose email object is present and holds the empty address. *)
Definition blank : CustomerSegmentMember :=
  mkMember (mkNode "gid://3" "No Address" (Some (mkDefaultEmail EmptyString))
              (mkMonetaryAmount (decimal.mkDecimal 5 (-1)) "USD")).

Definition okBody : http.ReadCloser := http.mkBody "{}" None 0%N EmptyString.

Definition sampleErrors : GraphQLResponse :=
  mkResponse [jane] [mkGraphQLError "Throttled"; mkGraphQLError "Internal error"].

Definition replied (dec : result GraphQLResponse) : Env :=
  sampleEnv (http.Reply 10%N (http.mkResponse 200 okBody)) dec.

(** A context whose deadline has passed at time zero. *)
Definition expired : context.Context :=
  context.mkContext (Some 0%N) context.DeadlineExceeded.

Definition unauthorized : http.Response :=
  http.mkResponse 401 (http.mkBody "Unauthorized" None 0%N EmptyString).

(** The context of [Action] for an invocation that starts at time zero. *)
Definition ctx5 : context.Context := context.WithTimeout 0%N 5000%N.

(** A context whose deadline passes after two writes of one tick each. *)
Definition ctx2 : context.Context :=
  context.mkContext (Some 2%N) context.DeadlineExceeded.

Definition sampleRequest : GraphQLRequest := mkRequest query (variables sampleFlags).

Definition sampleDomain : string := "example.myshopify.com".
Definition sampleToken : string := "shpat_0".

(** An environment whose disk refuses every file. *)
Definition readOnlyEnv : Env :=
  mkEnv (Getenv (replied (Ok sampleErrors))) (λ _, Ok "{}") (λ _, None)
    (λ _, http.Reply 10%N (http.mkResponse 200 okBody))
    (λ _, Ok (mkResponse [jane] []))
    (λ _, Some (errorString "permission denied")) (λ _, 1%N) (λ _, None) None.

(** An environment whose disk is full: the first write that reaches the
    device fails, and nothing of it is stored. *)
Definition fullDiskEnv : Env :=
  mkEnv (Getenv (replied (Ok sampleErrors))) (λ _, Ok "{}") (λ _, None)
    (λ _, http.Reply 10%N (http.mkResponse 200 okBody))
    (λ _, Ok (mkResponse [jane; john; blank] []))
    (λ _, None) (λ _, 1%N)
    (λ k, if (k =? 0)%nat then Some (0%nat, errorString "no space left on device")
          else None)
    None.

(** A device that takes the first 100 bytes and then is full. *)
Definition shortDiskEnv : Env :=
  mkEnv (Getenv fullDiskEnv) (Marshal fullDiskEnv) (NewRequestErr fullDiskEnv)
    (network fullDiskEnv) (Decode fullDiskEnv) (CreateErr fullDiskEnv)
    (writeTime fullDiskEnv)
    (λ k, if (k =? 0)%nat then Some (100%nat, errorString "no space left on device")
          else None)
    None.

(** An environment whose standard output takes nothing. *)
Definition mutedEnv : Env :=
  mkEnv (Getenv fullDiskEnv) (Marshal fullDiskEnv) (NewRequestErr fullDiskEnv)
    (network fullDiskEnv) (Decode fullDiskEnv) (CreateErr fullDiskEnv)
    (writeTime fullDiskEnv) (λ _, None) (Some 0%nat).

(** A record whose row is larger than the buffer of the writer. *)
Definition big : CustomerSegmentMember :=
  mkMember (mkNode "gid://4" (decimal.Repeat "x" 4500) None
              (mkMonetaryAmount (decimal.mkDecimal 1 0) "USD")).

(** A record whose address holds a CR LF. *)
Definition twoLines : CustomerSegmentMember :=
  mkMember (mkNode "gid://5" "Two Lines"
              (Some (mkDefaultEmail
                       ("a@example.com"
                        +:+ String csv.CR (String csv.LF "b@example.com"))))
              (mkMonetaryAmount (decimal.mkDecimal 1 0) "USD")).

(** A server that sends its headers after 10 ms and the body of its answer
    only after six seconds more. *)
Definition slowBody : http.Response :=
  http.mkResponse 200 (http.mkBody "{}" None 6000%N EmptyString).

(** An environment whose decoder reports the error of the stream when the
    stream ends in one, as it does when the JSON value is not complete. *)
Definition streamingEnv (out : http.Outcome) : Env :=
  mkEnv (Getenv (replied (Ok sampleErrors))) (λ _, Ok "{}") (λ _, None)
    (λ _, out)
    (λ b, match http.readErr b with
          | Some e => Err e
          | None => Ok (mkResponse [jane] [])
          end)
    (λ _, None) (λ _, 1%N) (λ _, None) None.


(** ** Further observations *)

(** The number of requests among some calls. *)
Fixpoint countDo (evs : list Event) : nat :=
  match evs with
  | [] => 0
  | EvDo _ :: rest => S (countDo rest)
  | _ :: rest => countDo rest
  end.

(** The device accepts every write. *)
Definition deviceOK (env : Env) : Prop := ∀ k, devErr env k = None.

(** The bytes a file holds, if it exists. *)
Definition holds (f : os.File) (s : World) : option string :=
  match f with
  | os.Stdout => Some (stdout s)
  | os.Named name => files s !! name
  end.

(** The bytes handed to a buffered writer so far: those its file holds,
    then those still in the buffer. *)
Definition streamOf (b : bufio.Writer) (s : World) : option string :=
  (λ x, x +:+ bufio.buf b) <$> holds (bufio.wr b) s.

(** Two worlds that agree on every file but [f]. *)
Definition elsewhere (f : os.File) (s s' : World) : Prop :=
  match f with
  | os.Stdout => files s' = files s
  | os.Named name =>
      stdout s' = stdout s
      ∧ ∀ other, other ≠ name → files s' !! other = files s !! other
  end.

(** Two worlds that differ at most in what file [f] holds. *)
Definition onlyAt (f : os.File) (s s' : World) : Prop :=
  now s' = now s ∧ log s' = log s ∧ elsewhere f s s'.

(** The bytes of some calls, taken together. *)
Definition opBytes (o : csv.Op) : string :=
  match o with
  | csv.OpByte c => String c EmptyString
  | csv.OpString p => p
  end.

Fixpoint opsBytes (ops : list csv.Op) : string :=
  match ops with
  | [] => EmptyString
  | o :: rest => opBytes o +:+ opsBytes rest
  end.

(** A text with every CR LF turned into LF, as [csv.Reader] reads it. *)
Fixpoint crlfToLF (s : string) : string :=
  match s with
  | EmptyString => EmptyString
  | String c s' =>
      if csv.isChar csv.CR c then
        match s' with
        | EmptyString => String c EmptyString
        | String c' s'' =>
            if csv.isChar csv.LF c' then String csv.LF (crlfToLF s'')
            else String c (crlfToLF s')
        end
      else String c (crlfToLF s')
  end.


(** The time the [Write] calls number [k] to [k + n - 1] take together. *)
Fixpoint sumTimes (env : Env) (k n : nat) : Time :=
  match n with
  | O => 0%N
  | S n' => (writeTime env k + sumTimes env (S k) n')%N
  end.

(** The step of [fetchAndExportCustomers] a failure comes from, as the
    first words of its message tell it. *)
Inductive Phase : Type := InConfiguration | InQuery | InResponse | InExport.

(** [strings.HasPrefix] *)
Fixpoint HasPrefix (s prefix : string) {struct prefix} : bool :=
  match prefix with
  | EmptyString => true
  | String a prefix' =>
      match s with
      | EmptyString => false
      | String b s' => Ascii.eqb a b && HasPrefix s' prefix'
      end
  end.

Definition phaseOf (msg : string) : option Phase :=
  if String.eqb msg "SHOPIFY_DOMAIN and SHOPIFY_ACCESS_TOKEN must be set"
  then Some InConfiguration
  else if HasPrefix msg "GraphQL query failed: " then Some InQuery
  else if HasPrefix msg "GraphQL errors: " then Some InResponse
  else if HasPrefix msg "failed to export CSV: " then Some InExport
  else None.

(** The success line without its line feed. *)
Definition successField (n : nat) (output : string) : string :=
  "Successfully exported " +:+ itoa (Z.of_nat n) +:+ " customers to " +:+ output.

(** A context that is never done. *)
Definition noDeadline : context.Context := context.Background.

(** A context cancelled by its owner at time zero. *)
Definition cancelled : context.Context :=
  context.mkContext (Some 0%N) context.Canceled.

(** A world that already holds two files. *)
Definition usedWorld : World :=
  mkWorld 0%N (<["customers.csv" := "old contents"]> (<["notes.txt" := "keep"]> ∅))
    "$ " [].

(** Exports cut short by [ctx2]: to a file and to the standard output. *)
Definition cutFileRun : World * option error :=
  exportToCSV (replied (Ok sampleErrors)) ctx2 [jane; john; blank] "customers.csv"
    usedWorld.

Definition cutStdoutRun : World * option error :=
  exportToCSV (replied (Ok sampleErrors)) ctx2 [jane; john; blank] "" usedWorld.

(** Flags that send the CSV to the standard output. *)
Definition stdoutFlags : cli.Context :=
  cli.mkContext (cli.Int sampleFlags)
    (λ name, if String.eqb name "output" then EmptyString
             else cli.String sampleFlags name)
    (cli.Bool sampleFlags).

(** Whether a call is a [Write]. *)
Definition isWrite (ev : Event) : bool :=
  match ev with EvWrite _ => true | _ => false end.


(** What every call on the buffered writer keeps: the file, the size of
    the buffer, and the world outside the file. *)
Definition keeps (b : bufio.Writer) (s : World)
    (r : bufio.Writer * World * option error) : Prop :=
  bufio.wr r.1.1 = bufio.wr b ∧ bufio.size r.1.1 = bufio.size b
  ∧ onlyAt (bufio.wr b) s r.1.2.

(** What a call that succeeds adds to the bytes handed over so far. *)
Definition adds (b : bufio.Writer) (x p : string)
    (r : bufio.Writer * World * option error) : Prop :=
  r.2 = None ∧ bufio.err r.1.1 = None
  ∧ bufio.wr r.1.1 = bufio.wr b ∧ bufio.size r.1.1 = bufio.size b
  ∧ streamOf r.1.1 r.1.2 = Some (x +:+ p).

(** [p] is the beginning of [x]. *)
Definition prefixOf (p x : string) : Prop := ∃ rest, p +:+ rest = x.

(** * Properties *)

(** ** Decimal rounding *)

Section DecimalFacts.
Import decimal.

Lemma rescale_exp d e : exp (rescale d e) = e.
Proof.
  unfold rescale. destruct (Z.eqb_spec (exp d) e) as [->|]; [done|].
  by destruct (exp d <? e).
Qed.

Lemma Round_exp d places : exp (Round d places) = - places.
Proof.
  unfold Round. destruct (Z.eqb_spec (exp d) (- places)) as [->|]; [done|].
  cbn. rewrite rescale_exp. lia.
Qed.

Lemma roundLast_spec t : roundLast t = Z.sgn t * ((Z.abs t + 5) / 10).
Proof.
  unfold roundLast.
  destruct (Z.ltb_spec t 0); cbn zeta.
  - rewrite Z.sgn_neg, Z.abs_neq by lia.
    destruct (Z.ltb_spec ((t - 5) / 10) 0);
      destruct (Z.eqb_spec ((t - 5) mod 10) 0); cbn [andb negb];
      Z.div_mod_to_equations; lia.
  - rewrite Z.abs_eq by lia.
    destruct (Z.eq_dec t 0) as [->|]; [done|].
    rewrite Z.sgn_pos by lia.
    destruct (Z.ltb_spec ((t + 5) / 10) 0); cbn [andb];
      Z.div_mod_to_equations; lia.
Qed.

Lemma Round_roundLast d places :
  exp d ≠ - places →
  value (Round d places) = roundLast (value (rescale d (- places - 1))).
Proof.
  intros Hne. unfold Round. destruct (Z.eqb_spec (exp d) (- places)); [done|].
  reflexivity.
Qed.

(** Cutting to one more digit first does not change the rounding. *)
Lemma half_up_two_steps a T :
  0 <= a → 0 < T → (a / T + 5) / 10 = (2 * a + 10 * T) / (2 * (10 * T)).
Proof.
  intros Ha HT.
  replace (2 * a + 10 * T) with (2 * (a + 5 * T)) by lia.
  rewrite Z.div_mul_cancel_l by lia.
  rewrite <- Z.div_add by lia.
  rewrite Z.div_div by lia. f_equal. lia.
Qed.

Lemma quot_sgn_abs v T : 0 < T → Z.quot v T = Z.sgn v * (Z.abs v / T).
Proof.
  intros HT. destruct (Z.lt_trichotomy v 0) as [?|[->|?]].
  - rewrite Z.sgn_neg, Z.abs_neq by lia.
    replace v with (- - v) at 1 by lia.
    rewrite Z.quot_opp_l by lia. rewrite Z.quot_div_nonneg by lia. lia.
  - done.
  - rewrite Z.sgn_pos, Z.abs_eq by lia. rewrite Z.quot_div_nonneg by lia. lia.
Qed.

Lemma Round_below d :
  exp d < -2 →
  value (Round d 2) = round_half_up (value d) (10 ^ (-2 - exp d)).
Proof.
  intros Hexp. rewrite Round_roundLast by lia. rewrite roundLast_spec.
  change (Z.opp 2 - 1) with (-3).
  set (T := 10 ^ (-3 - exp d)).
  assert (HT : 0 < T) by (apply Z.pow_pos_nonneg; lia).
  assert (HS : 10 ^ (-2 - exp d) = 10 * T).
  { unfold T. replace (-2 - exp d) with (Z.succ (-3 - exp d)) by lia.
    rewrite Z.pow_succ_r by lia. reflexivity. }
  assert (Hv : value (rescale d (-3)) = Z.sgn (value d) * (Z.abs (value d) / T)).
  { unfold rescale. destruct (Z.eqb_spec (exp d) (-3)) as [He|He].
    - unfold T. rewrite He. cbn. rewrite Z.div_1_r.
      symmetry. rewrite Z.mul_comm. apply Z.abs_sgn.
    - destruct (Z.ltb_spec (exp d) (-3)); [|lia]. cbn [value].
      replace (Z.abs (-3 - exp d)) with (-3 - exp d) by lia.
      fold T. by apply quot_sgn_abs. }
  rewrite Hv, HS. unfold round_half_up.
  set (a := Z.abs (value d)). assert (Ha : 0 <= a) by apply Z.abs_nonneg.
  assert (Hq : 0 <= a / T) by (apply Z.div_pos; lia).
  rewrite <- half_up_two_steps by lia.
  destruct (Z.lt_trichotomy (value d) 0) as [?|[Hv0|?]].
  - rewrite (Z.sgn_neg (value d)) by lia.
    destruct (Z.eq_dec (a / T) 0) as [Hz|Hz].
    + rewrite Hz. cbn. reflexivity.
    + replace (-1 * (a / T)) with (- (a / T)) by lia.
      rewrite Z.sgn_neg, Z.abs_neq by lia. f_equal. f_equal. lia.
  - rewrite Hv0. cbn. done.
  - rewrite (Z.sgn_pos (value d)) by lia. rewrite !Z.mul_1_l.
    destruct (Z.eq_dec (a / T) 0) as [Hz|Hz].
    + rewrite Hz. cbn. reflexivity.
    + rewrite Z.sgn_pos, Z.abs_eq by lia. lia.
Qed.

Lemma Round_above d :
  -2 <= exp d → value (Round d 2) = value d * 10 ^ (exp d + 2).
Proof.
  intros Hexp. destruct (Z.eq_dec (exp d) (-2)) as [He|He].
  - unfold Round. destruct (Z.eqb_spec (exp d) (- (2))); [|lia].
    rewrite He. change (10 ^ (-2 + 2)) with 1. lia.
  - rewrite Round_roundLast by lia. rewrite roundLast_spec.
    change (Z.opp 2 - 1) with (-3).
    unfold rescale. destruct (Z.eqb_spec (exp d) (-3)); [lia|].
    destruct (Z.ltb_spec (exp d) (-3)); [lia|]. cbn [value].
    replace (Z.abs (-3 - exp d)) with (Z.succ (exp d + 2)) by lia.
    rewrite Z.pow_succ_r by lia.
    set (b := value d * 10 ^ (exp d + 2)).
    replace (value d * (10 * 10 ^ (exp d + 2))) with (10 * b) by (unfold b; lia).
    destruct (Z.lt_trichotomy b 0) as [?|[->|?]].
    + rewrite Z.sgn_neg, Z.abs_neq by lia. Z.div_mod_to_equations. lia.
    + done.
    + rewrite Z.sgn_pos, Z.abs_eq by lia. Z.div_mod_to_equations. lia.
Qed.

End DecimalFacts.
(** ** The shape of a fixed-point string *)

Lemma append_cons c s t : String c s +:+ t = String c (s +:+ t).
Proof. reflexivity. Qed.

Lemma allDigits_app s t : allDigits (s +:+ t) = allDigits s && allDigits t.
Proof.
  induction s as [|c s IH]; simpl; [done|]. rewrite IH. by rewrite andb_assoc.
Qed.

Lemma allDigits_substring s : ∀ n m, allDigits s = true → allDigits (substring n m s) = true.
Proof.
  induction s as [|c s IH]; intros n m H.
  - by destruct n, m.
  - cbn in H. apply andb_true_iff in H as [Hc Hs].
    destruct n as [|n]; cbn.
    + destruct m as [|m]; [done|]. cbn. rewrite Hc. cbn. by apply IH.
    + by apply IH.
Qed.

Lemma length_substring s : ∀ n m,
  (n + m <= String.length s)%nat → String.length (substring n m s) = m.
Proof.
  induction s as [|c s IH]; intros n m H; cbn in H.
  - destruct n, m; cbn; lia.
  - destruct n as [|n]; cbn.
    + destruct m as [|m]; [done|]. cbn. rewrite IH; lia.
    + apply IH. lia.
Qed.

Lemma substring_full s : substring 0 (String.length s) s = s.
Proof. induction s as [|c s IH]; simpl; [done|]. by rewrite IH. Qed.

Lemma substring_split s : ∀ n,
  (n <= String.length s)%nat →
  substring 0 n s +:+ substring n (String.length s - n) s = s.
Proof.
  induction s as [|c s IH]; intros n H; simpl in H.
  - destruct n; [done|lia].
  - destruct n as [|n].
    + change (String.length (String c s) - 0)%nat with (String.length (String c s)).
      by rewrite substring_full.
    + simpl. rewrite append_cons. f_equal. apply IH. lia.
Qed.

Lemma length_app s t : String.length (s +:+ t) = (String.length s + String.length t)%nat.
Proof. induction s as [|c s IH]; simpl; [done|]. by rewrite IH. Qed.

Lemma length_Repeat0 n : String.length (decimal.Repeat "0" n) = n.
Proof.
  induction n as [|n IH]; [done|].
  change (decimal.Repeat "0" (S n)) with ("0" +:+ decimal.Repeat "0" n).
  rewrite length_app, IH. done.
Qed.

Lemma allDigits_Repeat0 n : allDigits (decimal.Repeat "0" n) = true.
Proof.
  induction n as [|n IH]; [done|].
  change (decimal.Repeat "0" (S n)) with ("0" +:+ decimal.Repeat "0" n).
  rewrite allDigits_app, IH. done.
Qed.

Lemma string_of_uint_digits u : allDigits (NilEmpty.string_of_uint u) = true.
Proof. induction u; cbn; done. Qed.

Lemma itoa_nonneg_digits z : 0 <= z → allDigits (itoa z) = true.
Proof.
  intros Hz. unfold itoa. destruct z as [|p|p]; [done| |lia].
  cbn. unfold NilZero.string_of_uint.
  destruct (Pos.to_uint p); try apply (string_of_uint_digits (_ _)); done.
Qed.

Lemma itoa_nonneg_length z : 0 <= z → (1 <= String.length (itoa z))%nat.
Proof.
  intros Hz. unfold itoa. destruct z as [|p|p]; [cbn; lia| |lia].
  cbn. unfold NilZero.string_of_uint.
  destruct (Pos.to_uint p); cbn; lia.
Qed.
Lemma digitsVal_zero_cons s : digitsVal (String "0" s) = digitsVal s.
Proof.
  unfold digitsVal. simpl. by destruct (NilEmpty.uint_of_string s).
Qed.

Lemma digitsVal_Repeat0 n s : digitsVal (decimal.Repeat "0" n +:+ s) = digitsVal s.
Proof.
  induction n as [|n IH]; [done|].
  change (decimal.Repeat "0" (S n) +:+ s) with (String "0" (decimal.Repeat "0" n +:+ s)).
  by rewrite digitsVal_zero_cons.
Qed.

Lemma digitsVal_itoa z : 0 <= z → digitsVal (itoa z) = z.
Proof.
  intros Hz. rewrite <- (DecimalZ.of_to z) at 2.
  unfold itoa, digitsVal. destruct z as [|p|p]; [done| |lia].
  simpl. unfold NilZero.string_of_uint.
  pose proof (DecimalPos.Unsigned.to_uint_nonnil p) as Hnn.
  destruct (Pos.to_uint p) eqn:E; [done|..]; by rewrite NilEmpty.usu.
Qed.

Lemma splitDot_digits ip fp :
  allDigits ip = true → splitDot (ip +:+ "." +:+ fp) = Some (ip, fp).
Proof.
  induction ip as [|c ip IH]; intros H; [done|].
  simpl in H. apply andb_true_iff in H as [Hc Hip].
  rewrite append_cons. simpl. rewrite IH by done.
  destruct (Ascii.eqb_spec c ".") as [->|]; [done|done].
Qed.

Lemma unsign_digits ip rest :
  allDigits ip = true → ip ≠ EmptyString → unsign (ip +:+ rest) = (false, ip +:+ rest).
Proof.
  destruct ip as [|c ip]; intros H Hne; [done|].
  simpl in H. apply andb_true_iff in H as [Hc _].
  rewrite append_cons. simpl.
  destruct (Ascii.eqb_spec c "-") as [->|]; [done|done].
Qed.

Section FixedShape.
Import decimal.

(** What [string_] prints for a number with two decimal places. *)
Lemma string_two_places r :
  exp r = -2 →
  ∃ ip fp,
    string_ r = (if value r <? 0 then "-" else "") +:+ ip +:+ "." +:+ fp
    ∧ allDigits ip = true ∧ ip ≠ EmptyString
    ∧ allDigits fp = true ∧ String.length fp = 2%nat
    ∧ digitsVal (ip +:+ fp) = Z.abs (value r).
Proof.
  intros He. unfold string_. rewrite He.
  change (0 <=? -2) with false. cbn iota.
  set (str := itoa (Z.abs (value r))).
  assert (Hd : allDigits str = true) by (apply itoa_nonneg_digits, Z.abs_nonneg).
  assert (Hl : (1 <= String.length str)%nat) by (apply itoa_nonneg_length, Z.abs_nonneg).
  assert (Hv : digitsVal str = Z.abs (value r)) by (apply digitsVal_itoa, Z.abs_nonneg).
  unfold len. change (- -2) with 2.
  destruct (Z.ltb_spec 2 (Z.of_nat (String.length str))) as [Hlt|Hge]; cbn [fst snd].
  - replace (Z.to_nat (Z.of_nat (String.length str) + -2))
      with (String.length str - 2)%nat by lia.
    change (Z.to_nat 2) with 2%nat.
    set (ip := substring 0 (String.length str - 2) str).
    set (fp := substring (String.length str - 2) 2 str).
    assert (Hfp : String.length fp = 2%nat) by (apply length_substring; lia).
    assert (Hip : String.length ip = (String.length str - 2)%nat)
      by (apply length_substring; lia).
    rewrite Hfp. change (0 <? Z.of_nat 2) with true. cbn iota.
    exists ip, fp. repeat split.
    + by destruct (value r <? 0).
    + by apply allDigits_substring.
    + intros E. rewrite E in Hip. simpl in Hip. lia.
    + by apply allDigits_substring.
    + done.
    + rewrite <- Hv. f_equal. unfold ip, fp.
      pose proof (substring_split str (String.length str - 2)) as Hs.
      replace (String.length str - (String.length str - 2))%nat with 2%nat in Hs by lia.
      apply Hs. lia.
  - set (fp := Repeat "0" (Z.to_nat (2 - Z.of_nat (String.length str))) +:+ str).
    assert (Hfp : String.length fp = 2%nat).
    { unfold fp. rewrite length_app, length_Repeat0. lia. }
    rewrite Hfp. change (0 <? Z.of_nat 2) with true. cbn iota.
    exists "0", fp. repeat split.
    + by destruct (value r <? 0).
    + done.
    + unfold fp. by rewrite allDigits_app, allDigits_Repeat0, Hd.
    + done.
    + change ("0" +:+ fp) with (String "0" fp).
      rewrite digitsVal_zero_cons. unfold fp. by rewrite digitsVal_Repeat0.
Qed.

Lemma StringFixed_isFixed d : isFixed 2 (StringFixed d 2) = true.
Proof.
  unfold StringFixed.
  destruct (string_two_places (Round d 2) (Round_exp d 2))
    as (ip & fp & -> & Hip & Hne & Hfp & Hlen & _).
  unfold isFixed.
  destruct (value (Round d 2) <? 0).
  - change (unsign ("-" +:+ ip +:+ "." +:+ fp)) with (true, ip +:+ "." +:+ fp).
    cbn [snd]. rewrite splitDot_digits by done.
    rewrite Hip, Hfp, Hlen. destruct ip; done.
  - change ("" +:+ ip +:+ "." +:+ fp) with (ip +:+ "." +:+ fp).
    rewrite unsign_digits by done. cbn [snd]. rewrite splitDot_digits by done.
    rewrite Hip, Hfp, Hlen. destruct ip; done.
Qed.

Lemma StringFixed_readFixed d :
  readFixed (StringFixed d 2) = Some (value (Round d 2)).
Proof.
  unfold StringFixed.
  destruct (string_two_places (Round d 2) (Round_exp d 2))
    as (ip & fp & -> & Hip & Hne & Hfp & Hlen & Hval).
  unfold readFixed.
  destruct (Z.ltb_spec (value (Round d 2)) 0).
  - change (unsign ("-" +:+ ip +:+ "." +:+ fp)) with (true, ip +:+ "." +:+ fp).
    cbn [fst snd]. rewrite splitDot_digits by done. rewrite Hval. f_equal. lia.
  - change ("" +:+ ip +:+ "." +:+ fp) with (ip +:+ "." +:+ fp).
    rewrite unsign_digits by done. cbn [fst snd]. rewrite splitDot_digits by done.
    rewrite Hval. f_equal. lia.
Qed.

End FixedShape.
(** ** encoding/csv: the bytes of a record *)

Lemma append_assoc s t u : (s +:+ t) +:+ u = s +:+ (t +:+ u).
Proof.
  induction s as [|c s IH]; [done|].
  change (String c ((s +:+ t) +:+ u) = String c (s +:+ t +:+ u)). by rewrite IH.
Qed.

Lemma append_nil_r s : s +:+ EmptyString = s.
Proof.
  induction s as [|c s IH]; [done|].
  change (String c (s +:+ EmptyString) = String c s). by rewrite IH.
Qed.

Lemma slice_app n : ∀ p, sliceTo n p +:+ sliceFrom n p = p.
Proof.
  induction n as [|n IH]; intros [|c p]; try done.
  simpl. rewrite append_cons. by rewrite IH.
Qed.

Lemma length_zero s : String.length s = 0%nat → s = EmptyString.
Proof. by destruct s. Qed.

Lemma opsBytes_app ops1 ops2 : opsBytes (ops1 ++ ops2) = opsBytes ops1 +:+ opsBytes ops2.
Proof.
  induction ops1 as [|o ops1 IH]; [done|]. simpl. by rewrite IH, append_assoc.
Qed.

Section CsvBytes.
Import csv.

Lemma isChar_true a c : isChar a c = true → c = a.
Proof. unfold isChar. by destruct (ascii_dec a c). Qed.

(** The calls for a quoted field write its body. *)
Lemma quotedOps_bytes useCRLF field : ∀ run,
  opsBytes (quotedOps useCRLF run field) = run +:+ quoteBody useCRLF field.
Proof.
  induction field as [|c field IH]; intros run.
  - cbn [quotedOps quoteBody]. rewrite append_nil_r.
    destruct (String.eqb_spec run "") as [->|]; [done|].
    cbn. by rewrite append_nil_r.
  - simpl. destruct (isChar Quote c).
    { simpl. rewrite IH. done. }
    destruct (isChar CR c).
    { destruct useCRLF; simpl; rewrite ?opsBytes_app, IH; done. }
    destruct (isChar LF c).
    { destruct useCRLF; simpl; rewrite IH; done. }
    rewrite IH. by rewrite append_assoc.
Qed.

Lemma fieldOps_bytes useCRLF field :
  opsBytes (fieldOps useCRLF field) = writeField useCRLF field.
Proof.
  unfold fieldOps, writeField. destruct (fieldNeedsQuotes field).
  - simpl. rewrite opsBytes_app, quotedOps_bytes. done.
  - simpl. by rewrite append_nil_r.
Qed.

Lemma tailOps_bytes useCRLF fields :
  opsBytes (tailOps useCRLF fields) = writeTail useCRLF fields.
Proof.
  induction fields as [|f fs IH]; [done|].
  simpl. by rewrite opsBytes_app, fieldOps_bytes, IH.
Qed.

(** The calls of [Write] write the record. *)
Lemma recordOps_bytes useCRLF record :
  opsBytes (recordOps useCRLF record) = writeRecord useCRLF record.
Proof.
  unfold recordOps, writeRecord. rewrite opsBytes_app.
  assert (E : opsBytes [if useCRLF then OpString (String CR (String LF EmptyString))
                        else OpByte LF]
              = (if useCRLF then String CR (String LF EmptyString)
                 else String LF EmptyString)).
  { by destruct useCRLF. }
  rewrite E. destruct record as [|f fs]; [done|].
  by rewrite opsBytes_app, fieldOps_bytes, tailOps_bytes.
Qed.

End CsvBytes.

(** ** encoding/csv: what is written reads back *)

Section CsvFacts.
Import csv.

Lemma special_false c :
  special c = false →
  isChar Quote c = false ∧ isChar Comma c = false ∧ isChar LF c = false
  ∧ isChar CR c = false.
Proof.
  unfold special. intros H.
  repeat (apply orb_false_iff in H as [H ?]). done.
Qed.

(** Reading a byte that is neither a line feed nor a carriage return. *)
Lemma read_byte st field row c rest :
  isChar LF c = false → isChar CR c = false →
  read st field row (String c rest)
  = match step st field row c with
    | Some (st1, field1, row1) => read st1 field1 row1 rest
    | None => None
    end.
Proof. intros H1 H2. cbn [read]. by rewrite H1, H2. Qed.

(** Reading a carriage return that no line feed follows. *)
Lemma read_CR field row c rest :
  isChar LF c = false →
  read Quoted field row (String CR (String c rest))
  = read Quoted (field +:+ String CR EmptyString) row (String c rest).
Proof.
  intros H. cbn [read].
  change (isChar LF CR) with false. change (isChar CR CR) with true.
  cbn iota. rewrite H. reflexivity.
Qed.

Lemma read_CRLF field row rest :
  read Quoted field row (String CR (String LF rest))
  = read Quoted (field +:+ String LF EmptyString) row rest.
Proof. reflexivity. Qed.

Lemma read_unquoted_run f : ∀ field row rest,
  containsAny f special = false →
  read Unquoted field row (f +:+ rest) = read Unquoted (field +:+ f) row rest.
Proof.
  induction f as [|c f IH]; intros field row rest H.
  - by rewrite append_nil_r.
  - simpl in H. apply orb_false_iff in H as [Hc Hf].
    apply special_false in Hc as (Hq & Hm & Hl & Hr).
    rewrite append_cons, read_byte by done. cbn [step]. rewrite Hq, Hm.
    rewrite IH by done. by rewrite append_assoc.
Qed.

(** A text without carriage returns is read as it is. *)
Lemma crlfToLF_plain f : containsAny f (isChar CR) = false → crlfToLF f = f.
Proof.
  induction f as [|c f IH]; [done|]. simpl. intros H.
  apply orb_false_iff in H as [Hc Hf]. rewrite Hc. by rewrite IH.
Qed.

Lemma containsAny_special_CR f :
  containsAny f special = false → containsAny f (isChar CR) = false.
Proof.
  induction f as [|c f IH]; [done|]. simpl. intros H.
  apply orb_false_iff in H as [Hc Hf].
  apply special_false in Hc as (_ & _ & _ & ->). by rewrite IH.
Qed.

Lemma crlfToLF_empty f : crlfToLF f = EmptyString ↔ f = EmptyString.
Proof.
  split; [|by intros ->]. destruct f as [|c f]; [done|]. simpl.
  destruct (isChar CR c); [|done]. destruct f as [|c' f]; [done|].
  by destruct (isChar LF c').
Qed.

(** The first byte of a quoted body is a line feed only if the first byte
    of the field is one. *)
Lemma quoteBody_head c f rest :
  isChar LF c = false →
  ∃ d tail, quoteBody false (String c f) +:+ rest = String d tail
            ∧ isChar LF d = false.
Proof.
  intros H. simpl. destruct (isChar Quote c) eqn:Hq.
  { by eexists _, _. }
  destruct (isChar CR c) eqn:Hr.
  { by eexists _, _. }
  rewrite H. by eexists _, _.
Qed.

(** The body of a quoted field reads back as the field, CR LF as LF. *)
Lemma read_quoted_body n : ∀ f field row rest,
  (String.length f <= n)%nat →
  read Quoted field row (quoteBody false f +:+ String Quote rest)
  = read QuoteSeen (field +:+ crlfToLF f) row rest.
Proof.
  induction n as [|n IH]; intros f field row rest Hlen.
  { destruct f; [|simpl in Hlen; lia]. simpl. by rewrite append_nil_r. }
  destruct f as [|c f].
  { simpl. by rewrite append_nil_r. }
  simpl in Hlen. assert (Hf : (String.length f <= n)%nat) by lia.
  destruct (isChar Quote c) eqn:Hq.
  { apply isChar_true in Hq as ->. simpl quoteBody. rewrite !append_cons.
    rewrite read_byte by done. cbn [step]. change (isChar Quote Quote) with true.
    cbn iota. rewrite read_byte by done. cbn [step].
    change (isChar Quote Quote) with true. cbn iota.
    rewrite IH by done. simpl crlfToLF. change (isChar CR Quote) with false.
    cbn iota. by rewrite append_assoc. }
  destruct (isChar CR c) eqn:Hr.
  { apply isChar_true in Hr as ->. simpl quoteBody. rewrite append_cons.
    destruct f as [|c' f'].
    - reflexivity.
    - destruct (isChar LF c') eqn:Hl'.
      + apply isChar_true in Hl' as ->. simpl quoteBody. rewrite append_cons.
        rewrite read_CRLF. simpl in Hf. rewrite IH by lia.
        simpl crlfToLF. change (isChar CR CR) with true.
        change (isChar LF LF) with true. cbn iota. by rewrite append_assoc.
      + destruct (quoteBody_head c' f' (String Quote rest) Hl') as (d & tail & E & Hd).
        rewrite E, read_CR by done. rewrite <- E, IH by done.
        assert (Ec : crlfToLF (String CR (String c' f'))
                     = String CR (crlfToLF (String c' f'))).
        { cbn [crlfToLF]. change (isChar CR CR) with true. cbn iota.
          by rewrite Hl'. }
        rewrite Ec. by rewrite append_assoc. }
  destruct (isChar LF c) eqn:Hl.
  { apply isChar_true in Hl as ->. simpl quoteBody. rewrite append_cons.
    cbn [read]. change (isChar LF LF) with true. cbn iota.
    rewrite IH by done. simpl crlfToLF. change (isChar CR LF) with false.
    cbn iota. by rewrite append_assoc. }
  simpl quoteBody. rewrite Hq, Hr, Hl. rewrite append_cons.
  rewrite read_byte by done. cbn [step]. rewrite Hq.
  rewrite IH by done. cbn [crlfToLF]. rewrite Hr. by rewrite append_assoc.
Qed.

Lemma fieldNeedsQuotes_false f :
  fieldNeedsQuotes f = false → containsAny f special = false.
Proof.
  unfold fieldNeedsQuotes.
  destruct (String.eqb_spec f "") as [->|_]; [done|].
  destruct (String.eqb f "\."); [done|].
  by destruct (containsAny f special).
Qed.

(** The states in which the reader expects a field to begin. *)
Lemma read_field_begin st f row rest sep :
  st = LineStart ∨ st = FieldStart →
  read st EmptyString row (writeField false f +:+ String sep rest)
  = read (if fieldNeedsQuotes f then QuoteSeen else
          match f with EmptyString => st | _ => Unquoted end)
      (crlfToLF f) row (String sep rest).
Proof.
  intros Hst. unfold writeField.
  destruct (fieldNeedsQuotes f) eqn:Hn.
  - rewrite append_cons, append_assoc.
    change (String Quote EmptyString +:+ String sep rest)
      with (String Quote (String sep rest)).
    rewrite read_byte by done.
    transitivity (read Quoted EmptyString row
                    (quoteBody false f +:+ String Quote (String sep rest))).
    { by destruct Hst as [->| ->]. }
    by rewrite (read_quoted_body (String.length f)).
  - apply fieldNeedsQuotes_false in Hn.
    rewrite (crlfToLF_plain f (containsAny_special_CR f Hn)).
    destruct f as [|c f]; [done|].
    simpl in Hn. apply orb_false_iff in Hn as [Hc Hf].
    apply special_false in Hc as (Hq & Hm & Hl & Hr).
    rewrite append_cons, read_byte by done.
    transitivity (read Unquoted (String c EmptyString) row (f +:+ String sep rest)).
    { destruct Hst as [->| ->]; cbn [step]; by rewrite Hq, Hm. }
    by rewrite read_unquoted_run.
Qed.

Lemma read_field_comma st f row rest :
  st = LineStart ∨ st = FieldStart →
  read st EmptyString row (writeField false f +:+ String Comma rest)
  = read FieldStart EmptyString (row ++ [crlfToLF f]) rest.
Proof.
  intros Hst. rewrite read_field_begin by done.
  rewrite read_byte by done.
  destruct (fieldNeedsQuotes f); [done|].
  destruct f as [|c f]; [|done]. by destruct Hst as [->| ->].
Qed.

Lemma read_field_LF f row rest :
  read FieldStart EmptyString row (writeField false f +:+ String LF rest)
  = cons (row ++ [crlfToLF f]) <$> read LineStart EmptyString [] rest.
Proof.
  unfold writeField. destruct (fieldNeedsQuotes f) eqn:Hn.
  - rewrite append_cons, append_assoc.
    change (String Quote EmptyString +:+ String LF rest)
      with (String Quote (String LF rest)).
    rewrite read_byte by done. cbn [step]. change (isChar Quote Quote) with true.
    cbn iota. by rewrite (read_quoted_body (String.length f)).
  - apply fieldNeedsQuotes_false in Hn.
    rewrite (crlfToLF_plain f (containsAny_special_CR f Hn)).
    destruct f as [|c f]; [done|].
    simpl in Hn. apply orb_false_iff in Hn as [Hc Hf].
    apply special_false in Hc as (Hq & Hm & Hl & Hr).
    rewrite append_cons, read_byte by done. cbn [step]. rewrite Hq, Hm.
    by rewrite read_unquoted_run.
Qed.

Lemma read_record_tail fs : ∀ f row rest,
  read FieldStart EmptyString row
    (writeField false f +:+ writeTail false fs +:+ String LF rest)
  = cons (row ++ map crlfToLF (f :: fs)) <$> read LineStart EmptyString [] rest.
Proof.
  induction fs as [|g gs IH]; intros f row rest.
  - simpl writeTail. change (EmptyString +:+ String LF rest) with (String LF rest).
    by rewrite read_field_LF.
  - simpl writeTail. rewrite append_cons, read_field_comma by (by right).
    rewrite append_assoc, IH. simpl. by rewrite <- app_assoc.
Qed.

(** A record of at least two fields reads back, CR LF as LF. *)
Lemma read_writeRecord r rest :
  (2 <= length r)%nat →
  read LineStart EmptyString [] (writeRecord false r +:+ rest)
  = cons (map crlfToLF r) <$> read LineStart EmptyString [] rest.
Proof.
  destruct r as [|f [|g fs]]; simpl length; try lia. intros _.
  unfold writeRecord. rewrite !append_assoc.
  change (String LF EmptyString +:+ rest) with (String LF rest).
  simpl writeTail. rewrite append_cons, read_field_comma by (by left).
  rewrite append_assoc, read_record_tail. done.
Qed.

Lemma read_writeAll records :
  Forall (λ r, (2 <= length r)%nat) records →
  read LineStart EmptyString [] (writeAll false records)
  = Some (map (map crlfToLF) records).
Proof.
  induction 1 as [|r rs Hr _ IH]; [done|].
  simpl writeAll. rewrite read_writeRecord by done.
  fold (writeAll false rs). by rewrite IH.
Qed.

Lemma ReadAll_writeAll n records :
  (2 <= n)%nat →
  Forall (λ r, length r = n) records →
  ReadAll (writeAll false records) = Some (map (map crlfToLF) records).
Proof.
  intros Hn H. unfold ReadAll. rewrite read_writeAll.
  2:{ eapply Forall_impl; [exact H|]. intros r Hr. cbn in Hr. lia. }
  assert (Hs : sameFieldCount (map (map crlfToLF) records) = true); [|by rewrite Hs].
  destruct H as [|r rs Hr Hrs]; [done|]. simpl. rewrite length_map, Hr.
  induction Hrs as [|r' rs' Hr' _ IH]; [done|].
  simpl. rewrite length_map, Hr', Nat.eqb_refl. exact IH.
Qed.

End CsvFacts.
(** ** The buffered writer *)

Lemma log_emit ev s : log (emit ev s) = log s ++ [ev].
Proof. done. Qed.

Lemma elsewhere_refl f s : elsewhere f s s.
Proof. by destruct f. Qed.

Lemma elsewhere_trans f s1 s2 s3 :
  elsewhere f s1 s2 → elsewhere f s2 s3 → elsewhere f s1 s3.
Proof.
  unfold elsewhere. destruct f as [|name]; [congruence|].
  intros [Ho1 Hf1] [Ho2 Hf2]. split; [congruence|].
  intros other Hne. by rewrite Hf2, Hf1.
Qed.

Lemma onlyAt_refl f s : onlyAt f s s.
Proof. repeat split. apply elsewhere_refl. Qed.

Lemma onlyAt_trans f s1 s2 s3 : onlyAt f s1 s2 → onlyAt f s2 s3 → onlyAt f s1 s3.
Proof.
  intros (Hn1 & Hl1 & H1) (Hn2 & Hl2 & H2).
  split; [congruence|]. split; [congruence|]. by apply (elsewhere_trans _ _ s2).
Qed.

Lemma onlyAt_append f p s : onlyAt f s (os.append f p s).
Proof.
  unfold onlyAt, elsewhere. destruct f as [|name]; cbn; [done|].
  repeat split. intros other Hne. by rewrite lookup_insert_ne.
Qed.

Lemma holds_append f p s h :
  holds f s = Some h → holds f (os.append f p s) = Some (h +:+ p).
Proof.
  destruct f as [|name]; cbn.
  - by intros [= <-].
  - intros ->. by rewrite lookup_insert_eq.
Qed.

Lemma holds_emit f ev s : holds f (emit ev s) = holds f s.
Proof. by destruct f. Qed.

Lemma holds_tick f d s : holds f (tick d s) = holds f s.
Proof. by destruct f. Qed.

Lemma Write_file_frame env f k p s : onlyAt f s (os.Write env f k p s).1.1.
Proof.
  unfold os.Write. destruct (devErr env k) as [[n e]|]; cbn [fst]; apply onlyAt_append.
Qed.

Lemma keeps_same b s e : keeps b s (b, s, e).
Proof. split; [done|]. split; [done|]. apply onlyAt_refl. Qed.

Lemma Flush_keeps env b s : keeps b s (bufio.Flush env b s).
Proof.
  unfold bufio.Flush. destruct (bufio.err b); [apply keeps_same|].
  destruct (_ =? _)%nat; [apply keeps_same|].
  pose proof (Write_file_frame env (bufio.wr b) (bufio.nwr b) (bufio.buf b) s) as H.
  destruct (os.Write _ _ _ _ _) as [[s1 n] e]. cbn [fst] in H.
  destruct e as [e|]; [by split; [|split]|].
  destruct (_ <? _)%nat; by split; [|split].
Qed.

Lemma forward_keeps env b p s : keeps b s (bufio.forward env b p s).
Proof.
  unfold bufio.forward.
  pose proof (Write_file_frame env (bufio.wr b) (bufio.nwr b) p s) as H.
  destruct (os.Write _ _ _ _ _) as [[s1 n] e]. by split; [|split].
Qed.

Lemma keeps_store b p s r : keeps (bufio.store b p) s r → keeps b s r.
Proof. done. Qed.

Lemma keeps_stored b p s e : keeps b s (bufio.store b p, s, e).
Proof. split; [done|]. split; [done|]. apply onlyAt_refl. Qed.

Lemma keeps_trans b s b1 s1 e1 r :
  keeps b s (b1, s1, e1) → keeps b1 s1 r → keeps b s r.
Proof.
  unfold keeps. cbn [fst snd]. intros (Hw & Hs & Ho) (Hw' & Hs' & Ho').
  rewrite Hw in Ho'. split; [congruence|]. split; [congruence|].
  by apply (onlyAt_trans _ _ s1).
Qed.

Lemma WriteString_keeps env b p s : keeps b s (bufio.WriteString env b p s).
Proof.
  unfold bufio.WriteString. destruct (bufio.err b); [apply keeps_same|].
  destruct (_ <=? _)%nat; [apply keeps_stored|].
  destruct (_ =? _)%nat; [apply forward_keeps|].
  pose proof (Flush_keeps env (bufio.store b (sliceTo (bufio.Available b) p)) s) as H.
  apply keeps_store in H.
  destruct (bufio.Flush _ _ _) as [[b1 s1] [e|]]; [done|].
  destruct (_ <=? _)%nat.
  - apply (keeps_trans _ _ _ _ _ _ H). apply keeps_stored.
  - apply (keeps_trans _ _ _ _ _ _ H). apply forward_keeps.
Qed.

Lemma WriteByte_keeps env b c s : keeps b s (bufio.WriteByte env b c s).
Proof.
  unfold bufio.WriteByte. destruct (bufio.err b); [apply keeps_same|].
  destruct (_ <=? _)%nat; [|apply keeps_stored].
  pose proof (Flush_keeps env b s) as H.
  destruct (bufio.Flush _ _ _) as [[b1 s1] [e|]]; [done|].
  apply (keeps_trans _ _ _ _ _ _ H). apply keeps_stored.
Qed.

Lemma runOps_keeps env ops : ∀ b s, keeps b s (csv.runOps env ops b s).
Proof.
  induction ops as [|o ops IH]; intros b s; [apply keeps_same|].
  cbn [csv.runOps].
  assert (H : keeps b s (csv.runOp env o b s)).
  { destruct o; [apply WriteByte_keeps|apply WriteString_keeps]. }
  destruct (csv.runOp env o b s) as [[b1 s1] [e|]]; [done|].
  apply (keeps_trans _ _ _ _ _ _ H), IH.
Qed.

(** *** When the device accepts every write *)

Lemma streamOf_holds b s x :
  streamOf b s = Some x → ∃ h, holds (bufio.wr b) s = Some h ∧ x = h +:+ bufio.buf b.
Proof.
  unfold streamOf. destruct (holds (bufio.wr b) s) as [h|]; [|done].
  intros [= <-]. by exists h.
Qed.

Lemma Flush_dev env b s x :
  deviceOK env → bufio.err b = None → streamOf b s = Some x →
  ∃ b' s', bufio.Flush env b s = (b', s', None)
    ∧ bufio.err b' = None ∧ bufio.buf b' = EmptyString
    ∧ bufio.wr b' = bufio.wr b ∧ bufio.size b' = bufio.size b
    ∧ holds (bufio.wr b) s' = Some x.
Proof.
  intros Hdev He Hx. apply streamOf_holds in Hx as (h & Hh & ->).
  unfold bufio.Flush, bufio.Buffered. rewrite He.
  destruct (String.length (bufio.buf b) =? 0)%nat eqn:Hlen.
  - apply Nat.eqb_eq, length_zero in Hlen. exists b, s. rewrite Hlen, append_nil_r.
    done.
  - unfold os.Write. rewrite (Hdev (bufio.nwr b)), Nat.ltb_irrefl.
    eexists _, _. split; [reflexivity|]. cbn. repeat split. by apply holds_append.
Qed.

Lemma forward_dev env b p s h :
  deviceOK env → holds (bufio.wr b) s = Some h →
  ∃ s', bufio.forward env b p s
        = (bufio.mkWriter (bufio.wr b) (bufio.size b) (bufio.buf b) None
             (S (bufio.nwr b)), s', None)
    ∧ holds (bufio.wr b) s' = Some (h +:+ p).
Proof.
  intros Hdev Hh. unfold bufio.forward, os.Write. rewrite (Hdev (bufio.nwr b)).
  eexists. split; [reflexivity|]. by apply holds_append.
Qed.

Lemma WriteString_dev env b p s x :
  deviceOK env → bufio.err b = None → streamOf b s = Some x →
  adds b x p (bufio.WriteString env b p s).
Proof.
  intros Hdev He Hx. unfold bufio.WriteString. rewrite He.
  destruct (_ <=? _)%nat.
  { apply streamOf_holds in Hx as (h & Hh & ->).
    repeat split; try done. unfold streamOf. cbn. rewrite Hh. cbn.
    by rewrite append_assoc. }
  unfold bufio.Buffered.
  destruct (String.length (bufio.buf b) =? 0)%nat eqn:Hlen.
  { apply streamOf_holds in Hx as (h & Hh & ->).
    apply Nat.eqb_eq, length_zero in Hlen.
    destruct (forward_dev env b p s h Hdev Hh) as (s' & -> & Hh').
    repeat split; try done. unfold streamOf. cbn. rewrite Hh'. cbn.
    by rewrite Hlen, !append_nil_r. }
  set (n := bufio.Available b).
  assert (Hx1 : streamOf (bufio.store b (sliceTo n p)) s = Some (x +:+ sliceTo n p)).
  { apply streamOf_holds in Hx as (h & Hh & ->). unfold streamOf. cbn. rewrite Hh.
    cbn. by rewrite append_assoc. }
  destruct (Flush_dev env (bufio.store b (sliceTo n p)) s _ Hdev He Hx1)
    as (b1 & s1 & -> & He1 & Hb1 & Hw1 & Hs1 & Hh1).
  cbn [bufio.store bufio.wr bufio.size] in Hw1, Hs1, Hh1.
  destruct (_ <=? _)%nat.
  { repeat split; try done. unfold streamOf. cbn. rewrite Hw1, Hh1. cbn.
    by rewrite Hb1, append_assoc, slice_app. }
  rewrite <- Hw1 in Hh1.
  destruct (forward_dev env b1 (sliceFrom n p) s1 _ Hdev Hh1) as (s' & -> & Hh').
  repeat split; try done. unfold streamOf. cbn. rewrite Hh'. cbn.
  by rewrite Hb1, append_nil_r, append_assoc, slice_app.
Qed.

Lemma WriteByte_dev env b c s x :
  deviceOK env → bufio.err b = None → streamOf b s = Some x →
  adds b x (String c EmptyString) (bufio.WriteByte env b c s).
Proof.
  intros Hdev He Hx. unfold bufio.WriteByte. rewrite He.
  destruct (_ <=? _)%nat.
  - destruct (Flush_dev env _ s _ Hdev He Hx)
      as (b1 & s1 & -> & He1 & Hb1 & Hw1 & Hs1 & Hh1).
    repeat split; try done. unfold streamOf. cbn. rewrite Hw1, Hh1. cbn.
    by rewrite Hb1.
  - apply streamOf_holds in Hx as (h & Hh & ->).
    repeat split; try done. unfold streamOf. cbn. rewrite Hh. cbn.
    by rewrite append_assoc.
Qed.

Lemma runOps_dev env ops : ∀ b s x,
  deviceOK env → bufio.err b = None → streamOf b s = Some x →
  adds b x (opsBytes ops) (csv.runOps env ops b s).
Proof.
  induction ops as [|o ops IH]; intros b s x Hdev He Hx.
  { repeat split; try done. cbn. by rewrite append_nil_r. }
  cbn [csv.runOps opsBytes].
  assert (H : adds b x (opBytes o) (csv.runOp env o b s)).
  { destruct o; [by apply WriteByte_dev|by apply WriteString_dev]. }
  destruct (csv.runOp env o b s) as [[b1 s1] e1].
  destruct H as (E & He1 & Hw1 & Hs1 & Hx1). cbn [fst snd] in *. subst e1.
  destruct (IH b1 s1 _ Hdev He1 Hx1) as (E & He2 & Hw2 & Hs2 & Hx2).
  repeat split; try congruence. by rewrite Hx2, append_assoc.
Qed.

(** *** When the bytes fit in the buffer *)

Lemma store_store b p q :
  bufio.store (bufio.store b p) q = bufio.store b (p +:+ q).
Proof. unfold bufio.store. cbn. by rewrite append_assoc. Qed.

Lemma store_nil b : bufio.store b EmptyString = b.
Proof. unfold bufio.store. rewrite append_nil_r. by destruct b. Qed.

Lemma WriteString_fits env b p s :
  bufio.err b = None →
  (String.length (bufio.buf b) + String.length p <= bufio.size b)%nat →
  bufio.WriteString env b p s = (bufio.store b p, s, None).
Proof.
  intros He Hfit. unfold bufio.WriteString, bufio.Available. rewrite He.
  destruct (Nat.leb_spec (String.length p) (bufio.size b - String.length (bufio.buf b)));
    [done|lia].
Qed.

Lemma WriteByte_fits env b c s :
  bufio.err b = None →
  (String.length (bufio.buf b) + 1 <= bufio.size b)%nat →
  bufio.WriteByte env b c s = (bufio.store b (String c EmptyString), s, None).
Proof.
  intros He Hfit. unfold bufio.WriteByte, bufio.Available. rewrite He.
  destruct (Nat.leb_spec (bufio.size b - String.length (bufio.buf b)) 0); [lia|done].
Qed.

Lemma runOps_fits env ops : ∀ b s,
  bufio.err b = None →
  (String.length (bufio.buf b) + String.length (opsBytes ops) <= bufio.size b)%nat →
  csv.runOps env ops b s = (bufio.store b (opsBytes ops), s, None).
Proof.
  induction ops as [|o ops IH]; intros b s He Hfit.
  { cbn. by rewrite store_nil. }
  cbn [csv.runOps opsBytes] in *. rewrite length_app in Hfit.
  assert (H : csv.runOp env o b s = (bufio.store b (opBytes o), s, None)).
  { destruct o; cbn [csv.runOp opBytes] in *.
    - apply WriteByte_fits; [done|]. cbn in Hfit. lia.
    - apply WriteString_fits; [done|]. lia. }
  rewrite H, IH; [by rewrite store_store|done|].
  cbn [bufio.store bufio.buf bufio.size]. rewrite length_app. lia.
Qed.

(** ** The writer and the export loop *)

Lemma Write_keeps env cw record s :
  keeps (csv.w cw) (emit (EvWrite record) (tick (writeTime env (csv.nwrites cw)) s))
    (csv.w (csv.Write env cw record s).1.1, (csv.Write env cw record s).1.2,
     (csv.Write env cw record s).2)
  ∧ csv.UseCRLF (csv.Write env cw record s).1.1 = csv.UseCRLF cw
  ∧ csv.nwrites (csv.Write env cw record s).1.1 = S (csv.nwrites cw).
Proof.
  unfold csv.Write.
  pose proof (runOps_keeps env (csv.recordOps (csv.UseCRLF cw) record) (csv.w cw)
                (emit (EvWrite record) (tick (writeTime env (csv.nwrites cw)) s))) as H.
  destruct (csv.runOps _ _ _ _) as [[b s2] e]. done.
Qed.

Lemma Write_world env cw record s cw1 s1 r :
  csv.Write env cw record s = (cw1, s1, r) →
  now s1 = (now s + writeTime env (csv.nwrites cw))%N
  ∧ log s1 = log s ++ [EvWrite record]
  ∧ bufio.wr (csv.w cw1) = bufio.wr (csv.w cw)
  ∧ bufio.size (csv.w cw1) = bufio.size (csv.w cw)
  ∧ csv.UseCRLF cw1 = csv.UseCRLF cw
  ∧ csv.nwrites cw1 = S (csv.nwrites cw)
  ∧ onlyAt (bufio.wr (csv.w cw)) (emit (EvWrite record) (tick (writeTime env (csv.nwrites cw)) s)) s1.
Proof.
  intros E. pose proof (Write_keeps env cw record s) as ((Hw & Hs & Ho) & Hu & Hn).
  rewrite E in *. cbn [fst snd] in *.
  destruct Ho as (Hnow & Hlog & Hrest).
  repeat split; try done.
Qed.

Lemma Write_dev env cw record s x :
  deviceOK env → bufio.err (csv.w cw) = None → streamOf (csv.w cw) s = Some x →
  ∃ cw1 s1, csv.Write env cw record s = (cw1, s1, None)
    ∧ bufio.err (csv.w cw1) = None
    ∧ streamOf (csv.w cw1) s1 = Some (x +:+ csv.writeRecord (csv.UseCRLF cw) record).
Proof.
  intros Hdev He Hx. unfold csv.Write.
  assert (Hx1 : streamOf (csv.w cw)
                  (emit (EvWrite record) (tick (writeTime env (csv.nwrites cw)) s))
                = Some x).
  { unfold streamOf in *. by rewrite holds_emit, holds_tick. }
  pose proof (runOps_dev env (csv.recordOps (csv.UseCRLF cw) record) _ _ _ Hdev He Hx1)
    as (E & He1 & _ & _ & Hx2).
  destruct (csv.runOps _ _ _ _) as [[b s2] e]. cbn [fst snd] in *. subst e.
  eexists _, _. split; [reflexivity|]. split; [done|].
  by rewrite <- recordOps_bytes.
Qed.

Lemma Write_fits env cw record s :
  bufio.err (csv.w cw) = None →
  (String.length (bufio.buf (csv.w cw))
   + String.length (csv.writeRecord (csv.UseCRLF cw) record)
   <= bufio.size (csv.w cw))%nat →
  csv.Write env cw record s
  = (csv.mkWriter (csv.UseCRLF cw)
       (bufio.store (csv.w cw) (csv.writeRecord (csv.UseCRLF cw) record))
       (S (csv.nwrites cw)),
     emit (EvWrite record) (tick (writeTime env (csv.nwrites cw)) s), None).
Proof.
  intros He Hfit. unfold csv.Write. rewrite <- recordOps_bytes in *.
  by rewrite runOps_fits.
Qed.

(** The world outside the file stays as it is through the loop, and the
    clock only moves forward. *)
Lemma exportRows_frame env ctx customers : ∀ writer s writer1 s1 r,
  exportRows env ctx customers writer s = (writer1, s1, r) →
  bufio.wr (csv.w writer1) = bufio.wr (csv.w writer)
  ∧ elsewhere (bufio.wr (csv.w writer)) s s1
  ∧ (now s <= now s1)%N.
Proof.
  induction customers as [|c rest IH]; intros writer s writer1 s1 r H; simpl in H.
  - injection H as <- <- <-. split; [done|]. split; [apply elsewhere_refl|lia].
  - destruct (context.Done ctx (now s)).
    { injection H as <- <- <-. split; [done|]. split; [apply elsewhere_refl|lia]. }
    destruct (csv.Write env writer (recordOf c) s) as [[wr sw] e] eqn:HW.
    apply Write_world in HW as (Hn & _ & Hw & _ & _ & _ & (_ & _ & Ho)).
    assert (Ho1 : elsewhere (bufio.wr (csv.w writer)) s sw).
    { revert Ho. unfold elsewhere. by destruct (bufio.wr (csv.w writer)). }
    destruct e as [e|].
    { injection H as <- <- <-. split; [done|]. split; [done|lia]. }
    apply IH in H as (Hw' & Ho' & Hn').
    split; [congruence|]. split; [|lia].
    rewrite Hw in Ho'. by apply (elsewhere_trans _ _ sw).
Qed.


(** When the device accepts every write, the loop ends either after all
    the records or at a set signal, and the rows of the records before that
    have been handed over, whole. *)
Lemma exportRows_dev env ctx customers : ∀ writer s writer1 s1 r x,
  deviceOK env →
  bufio.err (csv.w writer) = None →
  streamOf (csv.w writer) s = Some x →
  exportRows env ctx customers writer s = (writer1, s1, r) →
  ∃ k, (k <= length customers)%nat
    ∧ bufio.err (csv.w writer1) = None
    ∧ streamOf (csv.w writer1) s1
      = Some (x +:+ writeAll (csv.UseCRLF writer) (map recordOf (take k customers)))
    ∧ ((r = None ∧ k = length customers)
       ∨ (r = Some (errorString exportTimeoutMessage) ∧ (k < length customers)%nat)).
Proof.
  induction customers as [|c rest IH]; intros writer s writer1 s1 r x Hdev He Hx H;
    simpl in H.
  - injection H as <- <- <-. exists 0%nat. simpl. rewrite append_nil_r.
    repeat split; try done. by left.
  - destruct (context.Done ctx (now s)).
    { injection H as <- <- <-. exists 0%nat. simpl. rewrite append_nil_r.
      repeat split; try done; [lia|]. right. split; [done|lia]. }
    destruct (Write_dev env writer (recordOf c) s x Hdev He Hx)
      as (cw1 & sw & HW & He1 & Hx1).
    pose proof (Write_world _ _ _ _ _ _ _ HW) as (_ & _ & _ & _ & Hu & _).
    rewrite HW in H.
    apply (IH _ _ _ _ _ _ Hdev He1 Hx1) in H as (k & Hk & H1 & H3 & H4).
    exists (S k). simpl. split; [lia|]. split; [done|]. split.
    + rewrite H3, Hu. by rewrite append_assoc.
    + destruct H4 as [[-> ->]|[-> Hlt]]; [by left|right; split; [done|lia]].
Qed.



Lemma exportRows_log env ctx customers : ∀ writer s writer1 s1 r,
  exportRows env ctx customers writer s = (writer1, s1, r) →
  ∃ k, (k <= length customers)%nat
    ∧ log s1 = log s ++ map EvWrite (map recordOf (take k customers))
    ∧ (r = None → k = length customers).
Proof.
  induction customers as [|c rest IH]; intros writer s writer1 s1 r H; simpl in H.
  - injection H as <- <- <-. exists 0%nat. simpl. by rewrite app_nil_r.
  - destruct (context.Done ctx (now s)).
    { injection H as <- <- <-. exists 0%nat. simpl. rewrite app_nil_r.
      repeat split; [lia|done]. }
    destruct (csv.Write env writer (recordOf c) s) as [[wr sw] e] eqn:HW.
    apply Write_world in HW as (_ & Hlog & _).
    destruct e as [e|].
    + injection H as <- <- <-. exists 1%nat. rewrite Hlog.
      simpl. repeat split; [lia|done].
    + apply IH in H as (k & Hk & Hl & Hr). exists (S k). simpl.
      rewrite Hl, Hlog, <- app_assoc.
      repeat split; [lia|]. intros E. by rewrite (Hr E).
Qed.

Lemma exportBody_log env ctx customers writer s writer1 s1 r :
  exportBody env ctx customers writer s = (writer1, s1, r) →
  ∃ k, (k <= length customers)%nat
    ∧ log s1 = log s ++ map EvWrite (header :: map recordOf (take k customers))
    ∧ (r = None → k = length customers).
Proof.
  unfold exportBody. intros H.
  destruct (csv.Write env writer header s) as [[wr sw] e] eqn:HW.
  apply Write_world in HW as (_ & Hlog & _).
  destruct e as [e|].
  - injection H as <- <- <-. exists 0%nat. rewrite Hlog.
    simpl. repeat split; [lia|done].
  - apply exportRows_log in H as (k & Hk & Hl & Hr). exists k.
    rewrite Hl, Hlog, <- app_assoc. repeat split; done.
Qed.

Lemma exportBody_frame env ctx customers writer s writer1 s1 r :
  exportBody env ctx customers writer s = (writer1, s1, r) →
  bufio.wr (csv.w writer1) = bufio.wr (csv.w writer)
  ∧ elsewhere (bufio.wr (csv.w writer)) s s1
  ∧ (now s <= now s1)%N.
Proof.
  unfold exportBody. intros H.
  destruct (csv.Write env writer header s) as [[wr sw] e] eqn:HW.
  apply Write_world in HW as (Hn & _ & Hw & _ & _ & _ & (_ & _ & Ho)).
  assert (Ho1 : elsewhere (bufio.wr (csv.w writer)) s sw).
  { revert Ho. unfold elsewhere. by destruct (bufio.wr (csv.w writer)). }
  destruct e as [e|].
  { injection H as <- <- <-. split; [done|]. split; [done|lia]. }
  apply exportRows_frame in H as (Hw' & Ho' & Hn').
  split; [congruence|]. split; [|lia].
  rewrite Hw in Ho'. by apply (elsewhere_trans _ _ sw).
Qed.

Lemma writeRecord_header : csv.writeRecord false header = headerLine.
Proof. reflexivity. Qed.

Lemma exportBody_dev env ctx customers f s writer1 s1 r h :
  deviceOK env →
  holds f s = Some h →
  exportBody env ctx customers (csv.NewWriter f) s = (writer1, s1, r) →
  ∃ k, (k <= length customers)%nat
    ∧ bufio.err (csv.w writer1) = None
    ∧ bufio.wr (csv.w writer1) = f
    ∧ streamOf (csv.w writer1) s1
      = Some (h +:+ headerLine +:+ writeAll false (map recordOf (take k customers)))
    ∧ ((r = None ∧ k = length customers)
       ∨ (r = Some (errorString exportTimeoutMessage) ∧ (k < length customers)%nat)).
Proof.
  intros Hdev Hh H.
  pose proof (exportBody_frame _ _ _ _ _ _ _ _ H) as (Hw & _).
  revert H. unfold exportBody.
  assert (Hx : streamOf (csv.w (csv.NewWriter f)) s = Some h).
  { unfold streamOf. cbn. rewrite Hh. cbn. by rewrite append_nil_r. }
  destruct (Write_dev env (csv.NewWriter f) header s h Hdev eq_refl Hx)
    as (cw1 & sw & HW & He1 & Hx1).
  pose proof (Write_world _ _ _ _ _ _ _ HW) as (_ & _ & _ & _ & Hu & _).
  rewrite HW. intros H.
  apply (exportRows_dev _ _ _ _ _ _ _ _ _ Hdev He1 Hx1) in H
    as (k & Hk & H1 & H3 & H4).
  exists k. split; [done|]. split; [done|]. split; [done|]. split; [|done].
  rewrite H3, Hu. cbn [csv.NewWriter csv.UseCRLF].
  by rewrite writeRecord_header, append_assoc.
Qed.
(** *** Whatever the device does *)

Lemma prefixOf_refl x : prefixOf x x.
Proof. exists EmptyString. apply append_nil_r. Qed.

















Lemma writeAll_app useCRLF l1 l2 :
  writeAll useCRLF (l1 ++ l2) = writeAll useCRLF l1 +:+ writeAll useCRLF l2.
Proof.
  induction l1 as [|r l1 IH]; [done|]. simpl. by rewrite IH, append_assoc.
Qed.




(** ** The query builder *)

(** C8. For all flags, the variables mapping of the request holds exactly
    the four keys [first], [query], [sortKey] and [reverse], each bound to
    the value of the flag of the same name, unchanged and with its type:
    an integer, two strings and a boolean. *)
Theorem variables_four_keys (c : cli.Context) :
  dom (variables c) = ({["first"; "query"; "sortKey"; "reverse"]} : gset string)
  ∧ size (variables c) = 4%nat
  ∧ variables c !! "first" = Some (VInt (cli.Int c "first"))
  ∧ variables c !! "query" = Some (VString (cli.String c "query"))
  ∧ variables c !! "sortKey" = Some (VString (cli.String c "sortKey"))
  ∧ variables c !! "reverse" = Some (VBool (cli.Bool c "reverse"))
  ∧ Variables (mkRequest query (variables c)) = variables c.
Proof.
  unfold variables. split; [|split].
  - rewrite !dom_insert_L, dom_empty_L. set_solver.
  - rewrite !map_size_insert_None; [by rewrite map_size_empty|..];
      by simplify_map_eq.
  - by simplify_map_eq.
Qed.

(** ** The API client *)

Lemma executeGraphQLQuery_frame env ctx domain accessToken request s s1 r :
  executeGraphQLQuery env ctx domain accessToken request s = (s1, r) →
  files s1 = files s ∧ stdout s1 = stdout s
  ∧ ∃ evs, log s1 = log s ++ evs ∧ Forall (λ ev, isExportEvent ev = false) evs.
Proof.
  unfold executeGraphQLQuery. intros H.
  destruct (Marshal env request) as [body|e].
  2:{ injection H as <- <-. repeat split. exists []. by rewrite app_nil_r. }
  destruct (NewRequestErr env (apiURL domain)).
  { injection H as <- <-. repeat split. exists []. by rewrite app_nil_r. }
  destruct (http.Do _ _ _ _) as [t [resp|e]].
  - destruct (negb (http.StatusCode resp =? http.StatusOK)).
    + injection H as <- <-. repeat split.
      eexists [_; _]. split; [cbn; by rewrite <- app_assoc|].
      by repeat constructor.
    + destruct (Decode env (http.RespBody resp)); injection H as <- <-;
        repeat split; (eexists [_; _]; split;
          [cbn; by rewrite <- app_assoc|by repeat constructor]).
  - destruct (context.Err_ ctx _) as [[|]|]; injection H as <- <-;
      repeat split; (eexists [_]; split; [by rewrite !log_emit|by repeat constructor]).
Qed.

(** The message of an HTTP failure. *)
Lemma itoa_no_colon_space z : csv.containsAny (itoa z) (λ c, csv.isChar ":" c) = false.
Proof.
  assert (Hu : ∀ u, csv.containsAny (NilEmpty.string_of_uint u) (λ c, csv.isChar ":" c) = false).
  { induction u; simpl; done. }
  unfold itoa. destruct z as [|p|p]; [done|..]; simpl.
  - unfold NilZero.string_of_uint. destruct (Pos.to_uint p) eqn:E; [done|..];
      rewrite <- E; apply Hu.
  - unfold NilZero.string_of_uint. destruct (Pos.to_uint p) eqn:E; [done|..];
      rewrite <- E; apply Hu.
Qed.

Lemma itoa_inj a b : itoa a = itoa b → a = b.
Proof.
  unfold itoa. intros H. apply DecimalZ.to_int_inj.
  assert (Hn : ∀ z, Z.to_int z ≠ Decimal.Pos Decimal.Nil ∧ Z.to_int z ≠ Decimal.Neg Decimal.Nil).
  { intros [|p|p]; simpl; split; try done;
      intros [= E]; by apply (DecimalPos.Unsigned.to_uint_nonnil p). }
  destruct (Hn a) as [Ha1 Ha2], (Hn b) as [Hb1 Hb2].
  pose proof (NilZero.isi _ Ha1 Ha2) as Ea. pose proof (NilZero.isi _ Hb1 Hb2) as Eb.
  rewrite H in Ea. congruence.
Qed.

Lemma split_at_colon s1 : ∀ s2 r1 r2,
  csv.containsAny s1 (λ c, csv.isChar ":" c) = false →
  csv.containsAny s2 (λ c, csv.isChar ":" c) = false →
  s1 +:+ String ":" r1 = s2 +:+ String ":" r2 → s1 = s2 ∧ r1 = r2.
Proof.
  induction s1 as [|c s1 IH]; intros [|d s2] r1 r2 H1 H2 E.
  - by injection E.
  - rewrite append_cons in E. injection E as <- _. simpl in H2. done.
  - rewrite append_cons in E. injection E as -> _. simpl in H1. done.
  - rewrite !append_cons in E. injection E as -> E.
    simpl in H1, H2. apply orb_false_iff in H1 as [_ H1].
    apply orb_false_iff in H2 as [_ H2].
    destruct (IH _ _ _ H1 H2 E) as [-> ->]. done.
Qed.

Lemma httpMessage_inj code body code' body' :
  "HTTP " +:+ itoa code +:+ ": " +:+ body = "HTTP " +:+ itoa code' +:+ ": " +:+ body' →
  code = code' ∧ body = body'.
Proof.
  intros E. change ("HTTP " +:+ ?x) with (String "H" (String "T" (String "T" (String "P" (String " " x))))) in E.
  injection E as E.
  change (": " +:+ ?x) with (String ":" (String " " x)) in E.
  apply split_at_colon in E as [E1 E2]; try apply itoa_no_colon_space.
  injection E2 as ->. by apply itoa_inj in E1 as ->.
Qed.

(** C2. When the server answers with a status other than 200, the call
    fails with the error "HTTP <status>: <body>": the status in decimal and
    the bytes read from the body, unchanged, from which both can be read
    back; the only calls made are the request and the reading of the body,
    so the body is never decoded as JSON.  For status 401 and the body
    "Unauthorized" the message is "HTTP 401: Unauthorized". *)
Theorem http_error_carries_status_and_body
    env ctx domain accessToken request s body t resp :
  Marshal env request = Ok body →
  NewRequestErr env (apiURL domain) = None →
  http.Do 5000%N (network env) (apiRequest ctx domain accessToken body) (now s)
    = (t, Ok resp) →
  http.StatusCode resp ≠ http.StatusOK →
  ∃ s' msg,
    executeGraphQLQuery env ctx domain accessToken request s
      = (s', Err (errorString msg))
    ∧ msg = "HTTP " +:+ itoa (http.StatusCode resp) +:+ ": "
            +:+ http.data (http.RespBody resp)
    ∧ (∀ code' body', msg = "HTTP " +:+ itoa code' +:+ ": " +:+ body' →
         code' = http.StatusCode resp ∧ body' = http.data (http.RespBody resp))
    ∧ log s' = log s ++ [EvDo (apiRequest ctx domain accessToken body); EvReadAll]
    ∧ (http.StatusCode resp = 401 →
       http.data (http.RespBody resp) = "Unauthorized" →
       msg = "HTTP 401: Unauthorized").
Proof.
  intros HM HN HD HS. unfold executeGraphQLQuery. rewrite HM, HN, HD.
  destruct (Z.eqb_spec (http.StatusCode resp) http.StatusOK); [done|].
  cbn [negb]. unfold http.ReadAll. cbn [fst].
  eexists _, _. split; [reflexivity|]. split; [reflexivity|].
  split; [|split].
  - intros code' body' E. symmetry in E. by apply httpMessage_inj in E as [-> ->].
  - cbn. by rewrite <- app_assoc.
  - intros -> ->. reflexivity.
Qed.

(** What [client.Do] does when the deadline of the context comes before the
    headers and no later than the timer of the client. *)
Lemma Do_deadline (network : http.Request → http.Outcome) req t0 td :
  context.doneAt (http.Ctx req) = Some td →
  (td <= t0 + http.delayOf (network req))%N →
  (td <= t0 + 5000)%N →
  http.Do 5000%N network req t0
  = (N.max t0 td,
     Err (http.urlError (http.Method req) (http.URL req)
            (context.errorOf (context.reason (http.Ctx req))))).
Proof.
  intros Hd Hnet Hcli. unfold http.Do, http.cutOf. rewrite Hd.
  destruct (N.leb_spec td (t0 + 5000)) as [_|]; [|lia].
  destruct (N.ltb_spec (t0 + http.delayOf (network req)) (N.max t0 td)) as [|_];
    [lia|done].
Qed.

(** A call that fails when the deadline of the context has passed. *)
Lemma execute_after_deadline env ctx domain accessToken request s body td t err :
  Marshal env request = Ok body →
  NewRequestErr env (apiURL domain) = None →
  context.doneAt ctx = Some td →
  context.reason ctx = context.DeadlineExceeded →
  http.Do 5000%N (network env) (apiRequest ctx domain accessToken body) (now s)
    = (t, Err err) →
  (td <= t)%N →
  executeGraphQLQuery env ctx domain accessToken request s
  = (emit (EvDo (apiRequest ctx domain accessToken body)) (setNow t s),
     Err (errorString timeoutMessage)).
Proof.
  intros HM HN Hd Hr HD Ht. unfold executeGraphQLQuery. rewrite HM, HN, HD.
  cbn [now setNow emit]. unfold context.Err_. rewrite Hd, Hr.
  destruct (N.leb_spec td t) as [_|]; [done|lia].
Qed.

(** The call that is still waiting when the context's deadline passes. *)
Lemma execute_deadline env ctx domain accessToken request s body td :
  Marshal env request = Ok body →
  NewRequestErr env (apiURL domain) = None →
  context.doneAt ctx = Some td →
  context.reason ctx = context.DeadlineExceeded →
  (td <= now s + http.delayOf (network env (apiRequest ctx domain accessToken body)))%N →
  (td <= now s + 5000)%N →
  executeGraphQLQuery env ctx domain accessToken request s
  = (emit (EvDo (apiRequest ctx domain accessToken body))
       (setNow (N.max (now s) td) s),
     Err (errorString timeoutMessage)).
Proof.
  intros HM HN Hd Hr Hnet Hcli.
  eapply execute_after_deadline; try done; [|lia].
  by apply Do_deadline.
Qed.




(** The shapes a failure of [fetchAndExportCustomers] can have. *)
Lemma fetch_failure_shapes env ctx c s s' e :
  fetchAndExportCustomers env ctx c s = (s', Some e) →
  (e = errorString "SHOPIFY_DOMAIN and SHOPIFY_ACCESS_TOKEN must be set" ∧ s' = s)
  ∨ (∃ cause,
       e = wrapError "GraphQL query failed: " cause
       ∧ executeGraphQLQuery env ctx (Getenv env "SHOPIFY_DOMAIN")
           (Getenv env "SHOPIFY_ACCESS_TOKEN") (mkRequest query (variables c)) s
         = (s', Err cause))
  ∨ (∃ resp,
       e = errorString ("GraphQL errors: " +:+ fmt.vErrors (Errors resp))
       ∧ Errors resp ≠ []
       ∧ executeGraphQLQuery env ctx (Getenv env "SHOPIFY_DOMAIN")
           (Getenv env "SHOPIFY_ACCESS_TOKEN") (mkRequest query (variables c)) s
         = (s', Ok resp))
  ∨ (∃ cause, e = wrapError "failed to export CSV: " cause).
Proof.
  unfold fetchAndExportCustomers.
  destruct (_ || _).
  { intros [= <- <-]. by left. }
  destruct (executeGraphQLQuery _ _ _ _ _ _) as [s1 [resp|cause]] eqn:HE.
  - destruct (Errors resp) as [|g gs] eqn:HErr; cbn [length Nat.ltb Nat.leb].
    + destruct (exportToCSV _ _ _ _ _) as [s2 [cause|]]; intros [= <- <-].
      right. right. right. by eexists.
    + intros [= <- <-]. right. right. left. exists resp. by rewrite HErr.
  - intros [= <- <-]. right. left. by eexists.
Qed.

(** C10. Whenever [fetchAndExportCustomers] fails with an error that is
    not a failure of the export step (the missing configuration, a failed
    query: timeout, HTTP status, undecodable body, transport; or GraphQL
    errors in the response), the files and the standard output are what
    they were, and none of the calls of the exporter (creating the file,
    writing, flushing, closing) was made. *)
Theorem no_file_before_export env ctx c s s' e :
  fetchAndExportCustomers env ctx c s = (s', Some e) →
  beforeExport e = true →
  files s' = files s ∧ stdout s' = stdout s
  ∧ ∃ evs, log s' = log s ++ evs ∧ Forall (λ ev, isExportEvent ev = false) evs.
Proof.
  intros H Hb.
  destruct (fetch_failure_shapes _ _ _ _ _ _ H)
    as [[-> ->]|[(cause & -> & HE)|[(resp & -> & _ & HE)|(cause & ->)]]].
  - repeat split. exists []. by rewrite app_nil_r.
  - by apply executeGraphQLQuery_frame in HE.
  - by apply executeGraphQLQuery_frame in HE.
  - done.
Qed.
(** ** The exporter *)

Lemma Done_mono ctx t t' :
  context.Done ctx t = true → (t <= t')%N → context.Done ctx t' = true.
Proof.
  unfold context.Done, context.Err_. destruct (context.doneAt ctx) as [d|]; [|done].
  destruct (N.leb_spec d t); [|done]. intros _ Hle.
  destruct (N.leb_spec d t'); [done|lia].
Qed.

(** The deferred flush: it is one more call, takes no time, and touches
    only the file of the writer. *)
Lemma Flush_world env cw s :
  now (csv.Flush env cw s) = now s
  ∧ log (csv.Flush env cw s) = log s ++ [EvFlush]
  ∧ elsewhere (bufio.wr (csv.w cw)) s (csv.Flush env cw s).
Proof.
  unfold csv.Flush.
  pose proof (Flush_keeps env (csv.w cw) (emit EvFlush s)) as (_ & _ & Hn & Hl & Ho).
  split; [done|]. split; [done|].
  revert Ho. unfold elsewhere. by destruct (bufio.wr (csv.w cw)).
Qed.

Lemma log_Flush env cw s : log (csv.Flush env cw s) = log s ++ [EvFlush].
Proof. apply Flush_world. Qed.


(** The flush when the device accepts every write: all the bytes handed to
    the writer are in the file. *)
Lemma Flush_dev_holds env cw s x :
  deviceOK env → bufio.err (csv.w cw) = None → streamOf (csv.w cw) s = Some x →
  holds (bufio.wr (csv.w cw)) (csv.Flush env cw s) = Some x.
Proof.
  intros Hdev He Hx. unfold csv.Flush.
  assert (Hx' : streamOf (csv.w cw) (emit EvFlush s) = Some x).
  { unfold streamOf in *. by rewrite holds_emit. }
  by destruct (Flush_dev env _ _ _ Hdev He Hx') as (b' & s' & -> & _ & _ & _ & _ & Hh).
Qed.

Lemma writeAll_header rows :
  writeAll false (header :: rows) = headerLine +:+ writeAll false rows.
Proof. reflexivity. Qed.

(** The header fits in the empty buffer: writing it cannot fail. *)
Lemma Write_header env f s :
  csv.Write env (csv.NewWriter f) header s
  = (csv.mkWriter false
       (bufio.mkWriter f bufio.defaultBufSize headerLine None 0) 1,
     emit (EvWrite header) (tick (writeTime env 0) s), None).
Proof.
  rewrite Write_fits; [reflexivity|reflexivity|].
  apply Nat.leb_le. vm_compute. reflexivity.
Qed.

(** The flush of a buffer that holds the header alone. *)
Lemma Flush_header env f s :
  devErr env 0 = None →
  csv.Flush env
    (csv.mkWriter false (bufio.mkWriter f bufio.defaultBufSize headerLine None 0) 1) s
  = os.append f headerLine (emit EvFlush s).
Proof.
  intros H. unfold csv.Flush, bufio.Flush, os.Write. cbn [csv.w bufio.err bufio.nwr].
  rewrite H. reflexivity.
Qed.


(** When the device accepts every write and the destination can be opened,
    the export ends in one of two ways, and the destination then holds the
    header and the whole rows of the records handled. *)
Lemma exportToCSV_dev env ctx customers filename s s' r :
  deviceOK env →
  filename = EmptyString ∨ CreateErr env filename = None →
  exportToCSV env ctx customers filename s = (s', r) →
  ∃ k, (k <= length customers)%nat
    ∧ delivered filename s s'
        (headerLine +:+ writeAll false (map recordOf (take k customers)))
    ∧ ((r = None ∧ k = length customers)
       ∨ (r = Some (errorString exportTimeoutMessage) ∧ (k < length customers)%nat)).
Proof.
  intros Hdev HC. unfold exportToCSV, delivered.
  destruct (String.eqb_spec filename "") as [->|Hne].
  - destruct (exportBody _ _ _ _ _) as [[w1 s1] r1] eqn:HB. intros [= <- <-].
    apply (exportBody_dev _ _ _ _ _ _ _ _ (stdout s) Hdev) in HB
      as (k & Hk & He & Hw & Hx & Hr); [|done].
    exists k. split; [done|]. split; [|done].
    pose proof (Flush_dev_holds env w1 s1 _ Hdev He Hx) as Hh.
    rewrite Hw in Hh. cbn in Hh. by injection Hh.
  - destruct HC as [->|HC]; [done|]. unfold os.Create. rewrite HC.
    destruct (exportBody _ _ _ _ _) as [[w1 s1] r1] eqn:HB. intros [= <- <-].
    apply (exportBody_dev _ _ _ _ _ _ _ _ EmptyString Hdev) in HB
      as (k & Hk & He & Hw & Hx & Hr).
    2:{ cbn. by rewrite lookup_insert_eq. }
    exists k. split; [done|]. split; [|done].
    pose proof (Flush_dev_holds env w1 s1 _ Hdev He Hx) as Hh.
    rewrite Hw in Hh. cbn in Hh. unfold os.Close. cbn [files emit]. exact Hh.
Qed.

(** What a successful export leaves at its destination, when the device
    accepts every write. *)
Lemma exportToCSV_ok env ctx customers filename s s' :
  deviceOK env →
  exportToCSV env ctx customers filename s = (s', None) →
  delivered filename s s' (headerLine +:+ writeAll false (map recordOf customers)).
Proof.
  intros Hdev H.
  assert (HC : filename = EmptyString ∨ CreateErr env filename = None).
  { revert H. unfold exportToCSV, os.Create.
    destruct (String.eqb_spec filename ""); [by left|].
    destruct (CreateErr env filename); [done|by right]. }
  destruct (exportToCSV_dev _ _ _ _ _ _ _ Hdev HC H) as (k & Hk & Hd & [[_ ->]|[? _]]);
    [|done].
  by rewrite firstn_all in Hd.
Qed.





(** C9, as the code has it.  When the signal is already set as the export
    begins (and the file can be created and the device accepts the bytes at
    the flush), the header row is still written, and it is all that reaches
    the destination; the export then fails with "operation timed out during
    CSV export" if there is at least one record, and succeeds if there is
    none: the signal is only looked at before a data row. *)
Theorem header_written_when_expired env ctx customers filename s :
  context.Done ctx (now s) = true →
  CreateErr env filename = None →
  devErr env 0 = None →
  ∃ s',
    exportToCSV env ctx customers filename s
    = (s', match customers with
           | [] => None
           | _ :: _ => Some (errorString exportTimeoutMessage)
           end)
    ∧ delivered filename s s' headerLine.
Proof.
  intros HD HC HW.
  unfold exportToCSV, exportBody, os.Create. rewrite HC.
  rewrite !Write_header.
  assert (HD' : ∀ s0 k, now s0 = now s →
    context.Done ctx (now (emit (EvWrite header) (tick k s0))) = true).
  { intros s0 k E. apply (Done_mono _ _ _ HD). cbn. lia. }
  destruct (String.eqb filename "") eqn:Hf.
  - destruct customers as [|c rest]; cbn [exportRows].
    + eexists. split; [reflexivity|]. unfold delivered. rewrite Hf.
      by rewrite Flush_header.
    + rewrite HD' by done.
      eexists. split; [reflexivity|]. unfold delivered. rewrite Hf.
      by rewrite Flush_header.
  - destruct customers as [|c rest]; cbn [exportRows].
    + eexists. split; [reflexivity|]. unfold delivered. rewrite Hf.
      rewrite Flush_header by done.
      cbn. rewrite lookup_insert_eq. cbn. by rewrite lookup_insert_eq.
    + rewrite HD' by done.
      eexists. split; [reflexivity|]. unfold delivered. rewrite Hf.
      rewrite Flush_header by done.
      cbn. rewrite lookup_insert_eq. cbn. by rewrite lookup_insert_eq.
Qed.

Lemma lookup_map {A B} (f : A → B) (l : list A) : ∀ i, map f l !! i = f <$> l !! i.
Proof. induction l as [|x l IH]; intros [|i]; simpl; auto. Qed.

Lemma records_five customers :
  Forall (λ r : list string, length r = 5%nat) (header :: map recordOf customers).
Proof.
  constructor; [done|]. induction customers; constructor; done.
Qed.

(** C5, as the code has it.  A successful export of N records to a device
    that accepts the bytes is read back by [csv.Reader] as the header and N
    rows, row i being the row of record i with every CR LF read as LF; its
    email field is the empty string when the record has no email and the
    email address otherwise (as it is when the address holds no carriage
    return, else with CR LF read as LF), so it is empty exactly when the
    record has no email or has one whose address is the empty string. *)
Theorem export_reads_back env ctx customers filename s s' :
  deviceOK env →
  exportToCSV env ctx customers filename s = (s', None) →
  ∃ bytes rows,
    delivered filename s s' bytes
    ∧ csv.ReadAll bytes = Some (header :: rows)
    ∧ length rows = length customers
    ∧ (∀ i c, customers !! i = Some c →
         ∃ row, rows !! i = Some row
           ∧ row = map crlfToLF (recordOf c)
           ∧ row !! 2%nat = Some (crlfToLF (default EmptyString (emailOf c)))
           ∧ (emailOf c = None → row !! 2%nat = Some EmptyString)
           ∧ (∀ address, emailOf c = Some address →
                csv.containsAny address (csv.isChar csv.CR) = false →
                row !! 2%nat = Some address)
           ∧ (row !! 2%nat = Some EmptyString
              ↔ emailOf c = None ∨ emailOf c = Some EmptyString)).
Proof.
  intros Hdev H. exists (writeAll false (header :: map recordOf customers)),
    (map (map crlfToLF) (map recordOf customers)).
  split; [rewrite writeAll_header; by apply exportToCSV_ok in H|].
  split; [by rewrite (ReadAll_writeAll 5 _ ltac:(lia) (records_five customers))|].
  split; [by rewrite !length_map|].
  intros i c Hc. exists (map crlfToLF (recordOf c)). rewrite !lookup_map, Hc.
  split; [done|]. split; [done|].
  unfold recordOf, emailOf. destruct (DefaultEmailAddress (node c)) as [e|]; cbn.
  - split; [done|]. split; [done|].
    split; [intros address [= <-] Hcr; by rewrite (crlfToLF_plain _ Hcr)|].
    split.
    + intros [= E]. apply (proj1 (crlfToLF_empty _)) in E. right. by rewrite E.
    + intros [[=]|[= ->]]. done.
  - split; [done|]. split; [done|]. split; [done|]. split; [by left|done].
Qed.

Lemma plainChar_not_special c : plainChar c = true → csv.special c = false.
Proof.
  intros H.
  destruct c as [[] [] [] [] [] [] [] []]; vm_compute in H; try discriminate H;
    reflexivity.
Qed.

Lemma plainChar_first c s :
  plainChar c = true →
  String.eqb (String c s) "\." = false
  ∧ utf8.IsSpace (utf8.DecodeRuneInString (String c s)) = false.
Proof.
  intros H.
  destruct c as [[] [] [] [] [] [] [] []]; vm_compute in H; try discriminate H;
    clear H; split; reflexivity.
Qed.

Lemma allPlain_app s t : allPlain (s +:+ t) = allPlain s && allPlain t.
Proof.
  induction s as [|c s IH]; [done|].
  rewrite append_cons. simpl. by rewrite IH, andb_assoc.
Qed.

Lemma allDigits_allPlain s : allDigits s = true → allPlain s = true.
Proof.
  induction s as [|c s IH]; [done|]. simpl. intros [Hc Hs]%andb_true_iff.
  unfold plainChar. by rewrite Hc, IH.
Qed.

Lemma allPlain_not_special s : allPlain s = true → csv.containsAny s csv.special = false.
Proof.
  induction s as [|c s IH]; [done|]. simpl. intros [Hc Hs]%andb_true_iff.
  by rewrite plainChar_not_special, IH.
Qed.

Lemma allPlain_writeField s :
  allPlain s = true → csv.writeField false s = s.
Proof.
  intros H. unfold csv.writeField, csv.fieldNeedsQuotes.
  destruct s as [|c s]; [done|].
  rewrite (allPlain_not_special _ H).
  simpl in H. apply andb_true_iff in H as [Hc _].
  destruct (plainChar_first c s Hc) as [-> ->]. done.
Qed.

Lemma StringFixed_writeField d :
  csv.writeField false (decimal.StringFixed d 2) = decimal.StringFixed d 2.
Proof.
  apply allPlain_writeField. unfold decimal.StringFixed.
  destruct (string_two_places (decimal.Round d 2) (Round_exp d 2))
    as (ip & fp & -> & Hip & _ & Hfp & _ & _).
  rewrite !allPlain_app.
  rewrite (allDigits_allPlain ip Hip), (allDigits_allPlain fp Hfp).
  by destruct (decimal.value (decimal.Round d 2) <? 0).
Qed.

Section AmountColumn.
Import decimal.

Lemma Round_xx5 k : 0 <= k → value (Round (mkDecimal (10 * k + 5) (-3)) 2) = k + 1.
Proof.
  intros Hk. rewrite Round_below by (cbn; lia). cbn [value exp].
  unfold round_half_up. change (10 ^ (-2 - -3)) with 10.
  rewrite Z.sgn_pos, Z.abs_eq by lia.
  replace (2 * (10 * k + 5) + 10) with ((k + 1) * (2 * 10)) by lia.
  rewrite Z.div_mul by lia. lia.
Qed.

Lemma Round_xx5_neg k :
  0 <= k → value (Round (mkDecimal (- (10 * k + 5)) (-3)) 2) = - (k + 1).
Proof.
  intros Hk. rewrite Round_below by (cbn; lia). cbn [value exp].
  unfold round_half_up. change (10 ^ (-2 - -3)) with 10.
  rewrite Z.sgn_neg, Z.abs_neq by lia.
  replace (2 * - - (10 * k + 5) + 10) with ((k + 1) * (2 * 10)) by lia.
  rewrite Z.div_mul by lia. lia.
Qed.

(** C4. The amount column of a record's row is [StringFixed(2)] of the
    amount, written to the CSV text as it is, without quotes: an optional
    minus sign, digits, a point and exactly two digits, denoting the amount
    rounded to hundredths half away from zero (half-up on the magnitude);
    an amount with at most two decimal places is printed exactly.  12.345
    is printed "12.35" where half-to-even would give 12.34, and every
    amount ending in exactly .xx5 goes to the next hundredth away from
    zero. *)
Theorem amount_two_decimals_half_up (c : CustomerSegmentMember) :
  recordOf c !! 3%nat = Some (StringFixed (Amount (AmountSpent (node c))) 2)
  ∧ csv.writeField false (StringFixed (Amount (AmountSpent (node c))) 2)
    = StringFixed (Amount (AmountSpent (node c))) 2
  ∧ isFixed 2 (StringFixed (Amount (AmountSpent (node c))) 2) = true
  ∧ readFixed (StringFixed (Amount (AmountSpent (node c))) 2)
    = Some (value (Round (Amount (AmountSpent (node c))) 2))
  ∧ (∀ d, exp d < -2 →
       value (Round d 2) = round_half_up (value d) (10 ^ (-2 - exp d)))
  ∧ (∀ d, -2 <= exp d → value (Round d 2) = value d * 10 ^ (exp d + 2))
  ∧ StringFixed (mkDecimal 12345 (-3)) 2 = "12.35"
  ∧ round_half_even 12345 10 = 1234
  ∧ (∀ k, 0 <= k → value (Round (mkDecimal (10 * k + 5) (-3)) 2) = k + 1)
  ∧ (∀ k, 0 <= k → value (Round (mkDecimal (- (10 * k + 5)) (-3)) 2) = - (k + 1)).
Proof.
  split; [done|]. split; [apply StringFixed_writeField|].
  split; [apply StringFixed_isFixed|].
  split; [apply StringFixed_readFixed|].
  split; [apply Round_below|]. split; [apply Round_above|].
  split; [done|]. split; [done|]. split; [apply Round_xx5|apply Round_xx5_neg].
Qed.

End AmountColumn.
(** ** The theorems at sample runs *)

Lemma variables_four_keys_witness :
  variables sampleFlags !! "first" = Some (VInt 50)
  ∧ variables sampleFlags !! "reverse" = Some (VBool true)
  ∧ variables sampleFlags !! "limit" = None.
Proof.
  destruct (variables_four_keys sampleFlags) as (_ & _ & H1 & _ & _ & H4 & _).
  split; [exact H1|]. split; [exact H4|]. reflexivity.
Defined.

Lemma http_error_witness :
  ∃ s',
    executeGraphQLQuery (sampleEnv (http.Reply 10%N unauthorized) (Ok sampleErrors))
      ctx5 sampleDomain sampleToken sampleRequest world0
    = (s', Err (errorString "HTTP 401: Unauthorized")).
Proof.
  destruct (http_error_carries_status_and_body
              (sampleEnv (http.Reply 10%N unauthorized) (Ok sampleErrors))
              ctx5 sampleDomain sampleToken sampleRequest world0 "{}" 10%N unauthorized)
    as (s' & msg & E & _ & _ & _ & H401).
  - reflexivity.
  - reflexivity.
  - reflexivity.
  - discriminate.
  - exists s'. rewrite E, (H401 eq_refl eq_refl). reflexivity.
Defined.





Lemma no_file_before_export_witness :
  files (fetchAndExportCustomers
           (sampleEnv (http.Reply 10%N unauthorized) (Ok sampleErrors))
           ctx5 sampleFlags world0).1 = ∅
  ∧ stdout (fetchAndExportCustomers
           (sampleEnv (http.Reply 10%N unauthorized) (Ok sampleErrors))
           ctx5 sampleFlags world0).1 = EmptyString.
Proof.
  destruct (no_file_before_export
              (sampleEnv (http.Reply 10%N unauthorized) (Ok sampleErrors))
              ctx5 sampleFlags world0
              (fetchAndExportCustomers
                 (sampleEnv (http.Reply 10%N unauthorized) (Ok sampleErrors))
                 ctx5 sampleFlags world0).1
              (wrapError "GraphQL query failed: "
                 (errorString "HTTP 401: Unauthorized")))
    as (Hf & Ho & _).
  - vm_compute. reflexivity.
  - reflexivity.
  - split; [exact Hf|exact Ho].
Defined.



Lemma header_written_when_expired_witness :
  ∃ s',
    exportToCSV (replied (Ok sampleErrors)) expired [jane] "customers.csv" world0
    = (s', Some (errorString "operation timed out during CSV export"))
    ∧ files s' !! "customers.csv"
      = Some "ID,Display Name,Email Address,Amount Spent,Currency Code
".
Proof.
  destruct (header_written_when_expired (replied (Ok sampleErrors)) expired [jane]
              "customers.csv" world0)
    as (s' & E & Hd); [reflexivity|reflexivity|reflexivity|].
  exists s'. split; [exact E|exact Hd].
Defined.

(** C9 as stated fails for the empty list: with the signal set from the
    start, the export of no records writes the header and returns no
    error. *)
Lemma expired_empty_export_succeeds :
  context.Done expired (now world0) = true
  ∧ (exportToCSV (replied (Ok sampleErrors)) expired [] "customers.csv" world0).2 = None
  ∧ files (exportToCSV (replied (Ok sampleErrors)) expired [] "customers.csv" world0).1
      !! "customers.csv"
    = Some headerLine.
Proof. split; [reflexivity|]. split; [reflexivity|]. vm_compute. reflexivity. Qed.

Lemma export_reads_back_witness :
  ∃ bytes rows,
    files (exportToCSV (replied (Ok sampleErrors)) ctx5 [jane; john; blank]
             "customers.csv" world0).1 !! "customers.csv" = Some bytes
    ∧ csv.ReadAll bytes = Some (header :: rows)
    ∧ length rows = 3%nat
    ∧ (∃ row, rows !! 1%nat = Some row ∧ row !! 2%nat = Some "john@example.com").
Proof.
  destruct (export_reads_back (replied (Ok sampleErrors)) ctx5 [jane; john; blank]
              "customers.csv" world0
              (exportToCSV (replied (Ok sampleErrors)) ctx5 [jane; john; blank]
                 "customers.csv" world0).1)
    as (bytes & rows & Hd & Hr & Hl & Hrows).
  - intros k. reflexivity.
  - vm_compute. reflexivity.
  - exists bytes, rows. split; [exact Hd|]. split; [exact Hr|]. split; [exact Hl|].
    destruct (Hrows 1%nat john eq_refl) as (row & E & _ & He & _).
    exists row. split; [exact E|exact He].
Defined.

(** C5 as stated fails: a record can have an email whose address is the
    empty string; its row reads back with an empty email field although the
    record has an email.  And an address that holds a CR LF reads back with
    a line feed in its place. *)
Lemma email_empty_though_present :
  DefaultEmailAddress (node blank) = Some (mkDefaultEmail EmptyString)
  ∧ (exportToCSV (replied (Ok sampleErrors)) ctx5 [blank] "" world0).2 = None
  ∧ csv.ReadAll
      (stdout (exportToCSV (replied (Ok sampleErrors)) ctx5 [blank] "" world0).1)
    = Some [header; ["gid://3"; "No Address"; EmptyString; "0.50"; "USD"]]
  ∧ emailOf twoLines
    = Some ("a@example.com" +:+ String csv.CR (String csv.LF "b@example.com"))
  ∧ (exportToCSV (replied (Ok sampleErrors)) ctx5 [twoLines] "" world0).2 = None
  ∧ csv.ReadAll
      (stdout (exportToCSV (replied (Ok sampleErrors)) ctx5 [twoLines] "" world0).1)
    = Some [header;
            ["gid://5"; "Two Lines"; "a@example.com" +:+ String csv.LF "b@example.com";
             "1.00"; "USD"]].
Proof. repeat split; vm_compute; reflexivity. Qed.

Lemma amount_two_decimals_witness :
  recordOf john !! 3%nat = Some "12.35"
  ∧ decimal.value (decimal.Round (decimal.mkDecimal 2675 (-3)) 2) = 268.
Proof.
  destruct (amount_two_decimals_half_up john)
    as (H1 & _ & _ & _ & _ & _ & _ & _ & H8 & _).
  split.
  - rewrite H1. reflexivity.
  - apply (H8 267). lia.
Defined.

(** ** Further properties of the pipeline *)

(** X1. An invocation whose server has not answered five seconds after its
    start fails with "GraphQL query failed: operation timed out after 5
    seconds", five seconds after its start, and touches no file. *)
Theorem action_times_out env c s body :
  Getenv env "SHOPIFY_DOMAIN" ≠ EmptyString →
  Getenv env "SHOPIFY_ACCESS_TOKEN" ≠ EmptyString →
  Marshal env (mkRequest query (variables c)) = Ok body →
  NewRequestErr env (apiURL (Getenv env "SHOPIFY_DOMAIN")) = None →
  (5000 <= http.delayOf
             (network env
                (apiRequest (context.WithTimeout (now s) 5000)
                   (Getenv env "SHOPIFY_DOMAIN") (Getenv env "SHOPIFY_ACCESS_TOKEN")
                   body)))%N →
  ∃ s',
    Action env c s
    = (s', Some (wrapError "GraphQL query failed: " (errorString timeoutMessage)))
    ∧ now s' = (now s + 5000)%N ∧ files s' = files s ∧ stdout s' = stdout s.
Proof.
  intros Hd Ht HM HN Hdelay. unfold Action, fetchAndExportCustomers.
  destruct (String.eqb_spec (Getenv env "SHOPIFY_DOMAIN") ""); [done|].
  destruct (String.eqb_spec (Getenv env "SHOPIFY_ACCESS_TOKEN") ""); [done|].
  cbn [orb].
  rewrite (execute_deadline _ _ _ _ _ _ body (now s + 5000)%N); try done; [|lia].
  eexists. split; [reflexivity|]. cbn. repeat split. lia.
Qed.

Lemma action_times_out_witness :
  ∃ s',
    Action (sampleEnv (http.Reply 7000%N (http.mkResponse 200 okBody)) (Ok sampleErrors))
      sampleFlags world0
    = (s', Some (wrapError "GraphQL query failed: "
                   (errorString "operation timed out after 5 seconds")))
    ∧ now s' = 5000%N.
Proof.
  destruct (action_times_out
              (sampleEnv (http.Reply 7000%N (http.mkResponse 200 okBody)) (Ok sampleErrors))
              sampleFlags world0 "{}")
    as (s' & E & Hn & _).
  - discriminate.
  - discriminate.
  - reflexivity.
  - reflexivity.
  - cbn. lia.
  - exists s'. split; [exact E|exact Hn].
Defined.

(** X2. Without the domain or without the access token the invocation
    fails at once with "SHOPIFY_DOMAIN and SHOPIFY_ACCESS_TOKEN must be
    set"; the world is untouched: no request is sent. *)
Theorem missing_configuration env ctx c s :
  Getenv env "SHOPIFY_DOMAIN" = EmptyString
  ∨ Getenv env "SHOPIFY_ACCESS_TOKEN" = EmptyString →
  fetchAndExportCustomers env ctx c s
  = (s, Some (errorString "SHOPIFY_DOMAIN and SHOPIFY_ACCESS_TOKEN must be set")).
Proof.
  intros H. unfold fetchAndExportCustomers.
  destruct H as [-> | ->]; [done|]. by rewrite orb_true_r.
Qed.

Lemma missing_configuration_witness :
  fetchAndExportCustomers noConfigEnv ctx5 sampleFlags world0
  = (world0, Some (errorString "SHOPIFY_DOMAIN and SHOPIFY_ACCESS_TOKEN must be set")).
Proof. apply missing_configuration. left. reflexivity. Defined.

(** X3. A response with status 200 whose body does not decode fails the
    call with "failed to decode response: " wrapping the decoder's error. *)
Theorem decode_failure env ctx domain accessToken request s body t resp err :
  Marshal env request = Ok body →
  NewRequestErr env (apiURL domain) = None →
  http.Do 5000%N (network env) (apiRequest ctx domain accessToken body) (now s)
    = (t, Ok resp) →
  http.StatusCode resp = http.StatusOK →
  Decode env (http.RespBody resp) = Err err →
  (executeGraphQLQuery env ctx domain accessToken request s).2
  = Err (wrapError "failed to decode response: " err).
Proof.
  intros HM HN HD HS HE. unfold executeGraphQLQuery. rewrite HM, HN, HD, HS, HE.
  reflexivity.
Qed.

Lemma decode_failure_witness :
  (executeGraphQLQuery (replied (Err (errorString "unexpected end of JSON input")))
     ctx5 sampleDomain sampleToken sampleRequest world0).2
  = Err (wrapError "failed to decode response: "
           (errorString "unexpected end of JSON input")).
Proof.
  apply (decode_failure _ _ _ _ _ _ "{}" 10%N (http.mkResponse 200 okBody));
    reflexivity.
Defined.

(** X4. When the file cannot be created the export returns the error of
    [os.Create] as it is, and no row is written. *)
Theorem create_failure env ctx customers filename s err :
  filename ≠ EmptyString →
  CreateErr env filename = Some err →
  exportToCSV env ctx customers filename s = (emit (EvCreate filename) s, Some err).
Proof.
  intros Hf HC. unfold exportToCSV, os.Create.
  destruct (String.eqb_spec filename ""); [done|]. by rewrite HC.
Qed.

(** X5. A successful invocation printed, after the export, the number of
    records of the response and the destination. *)
Theorem success_reports_count env ctx c s s' :
  fetchAndExportCustomers env ctx c s = (s', None) →
  ∃ s1 resp s2,
    executeGraphQLQuery env ctx (Getenv env "SHOPIFY_DOMAIN")
      (Getenv env "SHOPIFY_ACCESS_TOKEN") (mkRequest query (variables c)) s
    = (s1, Ok resp)
    ∧ Errors resp = []
    ∧ exportToCSV env ctx (Edges resp) (cli.String c "output") s1 = (s2, None)
    ∧ s' = fmt.Printf env
             ("Successfully exported " +:+ itoa (Z.of_nat (length (Edges resp)))
              +:+ " customers to " +:+ cli.String c "output"
              +:+ String csv.LF EmptyString) s2.
Proof.
  unfold fetchAndExportCustomers. destruct (_ || _); [done|].
  destruct (executeGraphQLQuery _ _ _ _ _ _) as [s1 [resp|cause]]; [|done].
  destruct (Errors resp) as [|g gs] eqn:HErr; [|done]. cbn [length Nat.ltb Nat.leb].
  destruct (exportToCSV _ _ _ _ _) as [s2 [cause|]] eqn:HX; [done|].
  intros [= <-]. by exists s1, resp, s2.
Qed.

Lemma create_failure_witness :
  exportToCSV readOnlyEnv ctx5 [jane] "customers.csv" world0
  = (emit (EvCreate "customers.csv") world0,
     Some (errorString "permission denied")).
Proof. apply create_failure; [discriminate|reflexivity]. Defined.

Lemma success_reports_count_witness :
  ∃ s2,
    (fetchAndExportCustomers (replied (Ok (mkResponse [jane; john; blank] []))) ctx5
       sampleFlags world0).1
    = fmt.Printf (replied (Ok (mkResponse [jane; john; blank] [])))
        "Successfully exported 3 customers to customers.csv
" s2.
Proof.
  destruct (success_reports_count
              (replied (Ok (mkResponse [jane; john; blank] []))) ctx5 sampleFlags world0
              (fetchAndExportCustomers
                 (replied (Ok (mkResponse [jane; john; blank] []))) ctx5 sampleFlags
                 world0).1)
    as (s1 & resp & s2 & HE & _ & _ & E).
  - vm_compute. reflexivity.
  - exists s2. rewrite E. injection HE as _ <-. reflexivity.
Defined.



(** ** More of the pipeline: the calls it makes *)

Lemma countDo_app evs1 evs2 : countDo (evs1 ++ evs2) = (countDo evs1 + countDo evs2)%nat.
Proof.
  induction evs1 as [|ev evs1 IH]; [done|]. destruct ev; simpl; by rewrite ?IH.
Qed.

Lemma countDo_export evs :
  Forall (λ ev, isExportEvent ev = true) evs → countDo evs = 0%nat.
Proof. induction 1 as [|ev evs Hev _ IH]; [done|]. by destruct ev. Qed.

Lemma countDo_none evs req : countDo evs = 0%nat → ¬ In (EvDo req) evs.
Proof.
  induction evs as [|ev evs IH]; [by intros _ []|].
  destruct ev; simpl; intros H [E|E]; try discriminate; try lia; by apply IH.
Qed.

Lemma executeGraphQLQuery_events env ctx domain accessToken request s s1 r :
  executeGraphQLQuery env ctx domain accessToken request s = (s1, r) →
  ∃ evs, log s1 = log s ++ evs
    ∧ (countDo evs <= 1)%nat
    ∧ Forall (λ ev, isExportEvent ev = false) evs
    ∧ (∀ req, In (EvDo req) evs →
         ∃ body, Marshal env request = Ok body
           ∧ NewRequestErr env (apiURL domain) = None
           ∧ req = apiRequest ctx domain accessToken body).
Proof.
  unfold executeGraphQLQuery. intros H.
  destruct (Marshal env request) as [body|e].
  2:{ injection H as <- <-. exists []. rewrite app_nil_r. repeat split; try done.
      simpl; lia. }
  destruct (NewRequestErr env (apiURL domain)).
  { injection H as <- <-. exists []. rewrite app_nil_r. repeat split; try done.
    simpl; lia. }
  assert (Hshape : ∀ req tail, In (EvDo req)
            (EvDo (apiRequest ctx domain accessToken body) :: tail) →
            countDo tail = 0%nat →
            ∃ body0, Ok body = Ok body0 ∧ None = (None : option error)
              ∧ req = apiRequest ctx domain accessToken body0).
  { intros req tail [[= <-]|Hin] Hc; [by exists body|].
    by apply countDo_none in Hin. }
  destruct (http.Do _ _ _ _) as [t [resp|e]].
  - destruct (negb (http.StatusCode resp =? http.StatusOK)).
    + injection H as <- <-.
      exists [EvDo (apiRequest ctx domain accessToken body); EvReadAll].
      split; [cbn; by rewrite <- app_assoc|].
      split; [simpl; lia|]. split; [by repeat constructor|].
      intros req Hin. by apply (Hshape req [EvReadAll]).
    + exists [EvDo (apiRequest ctx domain accessToken body); EvDecode].
      destruct (Decode env (http.RespBody resp)); injection H as <- <-;
        (split; [cbn; by rewrite <- app_assoc|];
         split; [simpl; lia|]; split; [by repeat constructor|];
         intros req Hin; by apply (Hshape req [EvDecode])).
  - exists [EvDo (apiRequest ctx domain accessToken body)].
    destruct (context.Err_ ctx _) as [[|]|]; injection H as <- <-;
      (split; [by rewrite !log_emit|];
       split; [simpl; lia|]; split; [by repeat constructor|];
       intros req Hin; by apply (Hshape req [])).
Qed.

Lemma exportToCSV_events env ctx customers filename s s' r :
  exportToCSV env ctx customers filename s = (s', r) →
  ∃ evs, log s' = log s ++ evs ∧ Forall (λ ev, isExportEvent ev = true) evs.
Proof.
  assert (HW : ∀ records, Forall (λ ev, isExportEvent ev = true) (map EvWrite records)).
  { induction records; constructor; done. }
  unfold exportToCSV. destruct (String.eqb filename "").
  - destruct (exportBody _ _ _ _ _) as [[w1 s1] r1] eqn:HB. intros [= <- <-].
    apply exportBody_log in HB as (k & _ & Hl & _).
    eexists. rewrite log_Flush, Hl, <- app_assoc. split; [reflexivity|].
    apply Forall_app. split; [apply HW|by repeat constructor].
  - unfold os.Create. destruct (CreateErr env filename).
    { intros [= <- <-]. exists [EvCreate filename]. split; [done|].
      by repeat constructor. }
    destruct (exportBody _ _ _ _ _) as [[w1 s1] r1] eqn:HB. intros [= <- <-].
    apply exportBody_log in HB as (k & _ & Hl & _).
    unfold os.Close. rewrite log_emit, log_Flush, Hl. cbn [log emit].
    eexists. rewrite <- !app_assoc. split; [reflexivity|].
    apply Forall_app. split; [by repeat constructor|].
    apply Forall_app. split; [apply HW|by repeat constructor].
Qed.

(** The calls of one run of [fetchAndExportCustomers]: those of the query,
    then those of the export and the success line. *)
Lemma fetch_events env ctx c s s' r :
  fetchAndExportCustomers env ctx c s = (s', r) →
  ∃ before after, log s' = log s ++ before ++ after
    ∧ (countDo before <= 1)%nat
    ∧ Forall (λ ev, isExportEvent ev = false) before
    ∧ countDo after = 0%nat
    ∧ (∀ req, In (EvDo req) before →
         ∃ body, Marshal env (mkRequest query (variables c)) = Ok body
           ∧ NewRequestErr env (apiURL (Getenv env "SHOPIFY_DOMAIN")) = None
           ∧ req = apiRequest ctx (Getenv env "SHOPIFY_DOMAIN")
                     (Getenv env "SHOPIFY_ACCESS_TOKEN") body).
Proof.
  unfold fetchAndExportCustomers. destruct (_ || _).
  { intros [= <- <-]. exists [], []. rewrite !app_nil_r.
    repeat split; try done. simpl; lia. }
  destruct (executeGraphQLQuery _ _ _ _ _ _) as [s1 [resp|cause]] eqn:HE;
    apply executeGraphQLQuery_events in HE as (evs & Hl & Hc & Hf & Hreq).
  - destruct (0 <? length (Errors resp))%nat.
    { intros [= <- <-]. exists evs, []. by rewrite app_nil_r. }
    destruct (exportToCSV _ _ _ _ _) as [s2 [cause|]] eqn:HX;
      apply exportToCSV_events in HX as (evs2 & Hl2 & Hf2); intros [= <- <-].
    + exists evs, evs2. rewrite Hl2, Hl, <- app_assoc.
      repeat split; try done. by apply countDo_export.
    + exists evs, (evs2 ++ [EvPrintf
        (successMessage (length (Edges resp)) (cli.String c "output"))]).
      unfold fmt.Printf. rewrite log_emit. cbn [log]. rewrite Hl2, Hl, <- !app_assoc.
      repeat split; try done. rewrite countDo_app, countDo_export by done. done.
  - intros [= <- <-]. exists evs, []. by rewrite app_nil_r.
Qed.

(** X7. One run of [fetchAndExportCustomers] calls [client.Do] at most
    once: the program never retries, whatever the outcome, and makes no
    call once the export has begun.  (What the client does inside one call,
    such as following a redirect, is not counted.) *)
Theorem at_most_one_request env ctx c s s' r :
  fetchAndExportCustomers env ctx c s = (s', r) →
  ∃ before after, log s' = log s ++ before ++ after
    ∧ (countDo (before ++ after) <= 1)%nat
    ∧ Forall (λ ev, isExportEvent ev = false) before
    ∧ countDo after = 0%nat.
Proof.
  intros H. apply fetch_events in H as (before & after & Hl & Hc & Hf & Ha & _).
  exists before, after. rewrite countDo_app, Ha. repeat split; try done. lia.
Qed.

(** X8. The request a run hands to [client.Do] is the one built from the
    configuration and the flags: a POST to
    https://<SHOPIFY_DOMAIN>/admin/api/2025-01/graphql.json, bound to the
    context of the run, on which the program has set exactly two headers,
    the JSON content type and the access token, and with the marshalled
    query and variables as its body. *)
Theorem request_shape env ctx c s s' r pre req post :
  fetchAndExportCustomers env ctx c s = (s', r) →
  log s' = log s ++ pre ++ EvDo req :: post →
  ∃ body,
    Marshal env (mkRequest query (variables c)) = Ok body
    ∧ http.Method req = "POST"
    ∧ http.URL req
      = "https://" +:+ Getenv env "SHOPIFY_DOMAIN" +:+ "/admin/api/2025-01/graphql.json"
    ∧ dom (http.Header req)
      = ({["Content-Type"; "X-Shopify-Access-Token"]} : gset string)
    ∧ http.Header req !! "Content-Type" = Some "application/json"
    ∧ http.Header req !! "X-Shopify-Access-Token"
      = Some (Getenv env "SHOPIFY_ACCESS_TOKEN")
    ∧ http.Body req = body
    ∧ http.Ctx req = ctx.
Proof.
  intros H Hlog.
  apply fetch_events in H as (before & after & Hl & _ & _ & Ha & Hreq).
  rewrite Hl in Hlog. apply app_inv_head in Hlog.
  assert (Hin : In (EvDo req) (before ++ after)).
  { rewrite Hlog. apply in_or_app. right. by left. }
  apply in_app_or in Hin as [Hin|Hin]; [|by apply countDo_none in Hin].
  destruct (Hreq req Hin) as (body & HM & _ & ->). exists body.
  split; [done|]. split; [done|]. split; [done|]. unfold apiRequest. cbn.
  split; [rewrite !dom_insert_L, dom_empty_L; set_solver|].
  split; [by simplify_map_eq|]. split; [by simplify_map_eq|done].
Qed.

Lemma at_most_one_request_witness :
  ∃ before after,
    log (fetchAndExportCustomers (replied (Ok (mkResponse [jane; john] []))) ctx5
           sampleFlags world0).1
    = log world0 ++ before ++ after
    ∧ (countDo (before ++ after) <= 1)%nat
    ∧ Forall (λ ev, isExportEvent ev = false) before
    ∧ countDo after = 0%nat.
Proof.
  apply (at_most_one_request (replied (Ok (mkResponse [jane; john] []))) ctx5
           sampleFlags world0 _
           (fetchAndExportCustomers (replied (Ok (mkResponse [jane; john] []))) ctx5
              sampleFlags world0).2).
  apply surjective_pairing.
Defined.

Lemma request_shape_witness :
  http.URL (apiRequest ctx5 sampleDomain sampleToken "{}")
  = "https://example.myshopify.com/admin/api/2025-01/graphql.json"
  ∧ http.Header (apiRequest ctx5 sampleDomain sampleToken "{}")
      !! "X-Shopify-Access-Token"
    = Some "shpat_0"
  ∧ dom (http.Header (apiRequest ctx5 sampleDomain sampleToken "{}"))
    = ({["Content-Type"; "X-Shopify-Access-Token"]} : gset string).
Proof.
  destruct (request_shape
              (sampleEnv (http.Reply 10%N unauthorized) (Ok sampleErrors))
              ctx5 sampleFlags world0
              (fetchAndExportCustomers
                 (sampleEnv (http.Reply 10%N unauthorized) (Ok sampleErrors))
                 ctx5 sampleFlags world0).1
              (fetchAndExportCustomers
                 (sampleEnv (http.Reply 10%N unauthorized) (Ok sampleErrors))
                 ctx5 sampleFlags world0).2
              [] (apiRequest ctx5 sampleDomain sampleToken "{}") [EvReadAll])
    as (body & _ & _ & HU & HD & _ & HT & _).
  - apply surjective_pairing.
  - vm_compute. reflexivity.
  - split; [exact HU|]. split; [exact HT|exact HD].
Defined.

(** ** More of the pipeline: the API client *)

(** X9. A call that fails while its context has not passed its deadline
    is reported as "HTTP request failed: " followed by the cause, never as
    a timeout: so is a refused connection, a context cancelled for another
    reason, and the client's own five-second timer when it fires under a
    context that is still live. *)
Theorem live_context_failure_is_generic
    env ctx domain accessToken request s body t err :
  Marshal env request = Ok body →
  NewRequestErr env (apiURL domain) = None →
  http.Do 5000%N (network env) (apiRequest ctx domain accessToken body) (now s)
    = (t, Err err) →
  context.Err_ ctx t ≠ Some context.DeadlineExceeded →
  ∃ s',
    executeGraphQLQuery env ctx domain accessToken request s
    = (s', Err (wrapError "HTTP request failed: " err))
    ∧ now s' = t
    ∧ Error (wrapError "HTTP request failed: " err)
      = "HTTP request failed: " +:+ Error err
    ∧ Error (wrapError "HTTP request failed: " err) ≠ timeoutMessage.
Proof.
  intros HM HN HD HC. unfold executeGraphQLQuery. rewrite HM, HN, HD.
  cbn [now setNow emit].
  destruct (context.Err_ ctx t) as [[|]|]; try done;
    (eexists; split; [reflexivity|]; split; [done|]; split; [done|];
     discriminate).
Qed.

Lemma live_context_failure_witness :
  (∃ s',
     executeGraphQLQuery
       (sampleEnv (http.Reply 7000%N (http.mkResponse 200 okBody)) (Ok sampleErrors))
       noDeadline sampleDomain sampleToken sampleRequest world0
     = (s', Err (wrapError "HTTP request failed: "
                   (http.urlError "POST" (apiURL sampleDomain)
                      (errorString
                         "context deadline exceeded (Client.Timeout exceeded while awaiting headers)"))))
     ∧ now s' = 5000%N)
  ∧ (∃ s',
       executeGraphQLQuery
         (sampleEnv (http.Reply 10%N (http.mkResponse 200 okBody)) (Ok sampleErrors))
         cancelled sampleDomain sampleToken sampleRequest world0
       = (s', Err (wrapError "HTTP request failed: "
                     (http.urlError "POST" (apiURL sampleDomain)
                        (errorString "context canceled"))))
       ∧ now s' = 0%N).
Proof.
  split.
  - destruct (live_context_failure_is_generic
                (sampleEnv (http.Reply 7000%N (http.mkResponse 200 okBody))
                   (Ok sampleErrors))
                noDeadline sampleDomain sampleToken sampleRequest world0 "{}" 5000%N
                (http.urlError "POST" (apiURL sampleDomain)
                   (errorString
                      "context deadline exceeded (Client.Timeout exceeded while awaiting headers)")))
      as (s' & E & Hn & _); [reflexivity|reflexivity|reflexivity|discriminate|].
    exists s'. split; [exact E|exact Hn].
  - destruct (live_context_failure_is_generic
                (sampleEnv (http.Reply 10%N (http.mkResponse 200 okBody))
                   (Ok sampleErrors))
                cancelled sampleDomain sampleToken sampleRequest world0 "{}" 0%N
                (http.urlError "POST" (apiURL sampleDomain)
                   (errorString "context canceled")))
      as (s' & E & Hn & _); [reflexivity|reflexivity|reflexivity|discriminate|].
    exists s'. split; [exact E|exact Hn].
Defined.




(** ** More of the pipeline: the exporter *)

Lemma exportToCSV_frame env ctx customers filename s s' r :
  exportToCSV env ctx customers filename s = (s', r) →
  (filename = EmptyString → files s' = files s)
  ∧ (filename ≠ EmptyString →
     stdout s' = stdout s
     ∧ ∀ name, name ≠ filename → files s' !! name = files s !! name).
Proof.
  unfold exportToCSV. destruct (String.eqb_spec filename "") as [->|Hne].
  - destruct (exportBody _ _ _ _ _) as [[w1 s1] r1] eqn:HB. intros [= <- <-].
    apply exportBody_frame in HB as (Hw & Ho & _). split; [|done]. intros _.
    destruct (Flush_world env w1 s1) as (_ & _ & Hf). rewrite Hw in Hf.
    cbn in Ho, Hf. congruence.
  - unfold os.Create. destruct (CreateErr env filename).
    { intros [= <- <-]. split; [done|]. by intros _. }
    destruct (exportBody _ _ _ _ _) as [[w1 s1] r1] eqn:HB. intros [= <- <-].
    apply exportBody_frame in HB as (Hw & Ho & _). split; [done|]. intros _.
    destruct (Flush_world env w1 s1) as (_ & _ & Hf). rewrite Hw in Hf.
    cbn in Ho, Hf. destruct Ho as [Ho1 Ho2], Hf as [Hf1 Hf2].
    unfold os.Close. cbn [emit stdout files]. split; [congruence|].
    intros name Hn. rewrite Hf2, Ho2 by done. by rewrite lookup_insert_ne.
Qed.

(** X11. An export touches nothing but its destination: with a file name
    it leaves the standard output and every other file as they were, and
    with the empty name it leaves every file as it was; this holds for
    every run, failed or not. *)
Theorem export_touches_only_destination env ctx customers filename s s' r :
  exportToCSV env ctx customers filename s = (s', r) →
  (filename = EmptyString → files s' = files s)
  ∧ (filename ≠ EmptyString →
     stdout s' = stdout s
     ∧ ∀ name, name ≠ filename → files s' !! name = files s !! name).
Proof. apply exportToCSV_frame. Qed.

Lemma export_touches_only_destination_witness :
  files cutFileRun.1 !! "notes.txt" = Some "keep"
  ∧ stdout cutFileRun.1 = "$ "
  ∧ files cutStdoutRun.1 = files usedWorld.
Proof.
  destruct (export_touches_only_destination (replied (Ok sampleErrors)) ctx2
              [jane; john; blank] "customers.csv" usedWorld
              cutFileRun.1 cutFileRun.2 (surjective_pairing _))
    as [_ Hfile].
  destruct (Hfile ltac:(discriminate)) as [Ho Hother].
  destruct (export_touches_only_destination (replied (Ok sampleErrors)) ctx2
              [jane; john; blank] "" usedWorld
              cutStdoutRun.1 cutStdoutRun.2 (surjective_pairing _))
    as [Hstd _].
  split; [|split].
  - rewrite (Hother "notes.txt") by discriminate. reflexivity.
  - exact Ho.
  - exact (Hstd eq_refl).
Defined.

(** X12. When the destination can be opened and the device accepts every
    write, whatever the destination held before is replaced, and what it
    holds after the export is the header row and the complete rows of the
    first k records, in order: all of them when the export succeeds, fewer
    when it ends with "operation timed out during CSV export"; these are
    the only two ways it ends, and no row is cut short. *)
Theorem output_is_header_and_whole_rows env ctx customers filename s s' r :
  deviceOK env →
  filename = EmptyString ∨ CreateErr env filename = None →
  exportToCSV env ctx customers filename s = (s', r) →
  ∃ k, (k <= length customers)%nat
    ∧ delivered filename s s'
        (headerLine +:+ writeAll false (map recordOf (take k customers)))
    ∧ ((r = None ∧ k = length customers)
       ∨ (r = Some (errorString exportTimeoutMessage) ∧ (k < length customers)%nat)).
Proof. apply exportToCSV_dev. Qed.

Lemma output_is_header_and_whole_rows_witness :
  ∃ k, (k <= 3)%nat
    ∧ files cutFileRun.1 !! "customers.csv"
      = Some (headerLine
              +:+ writeAll false (map recordOf (take k [jane; john; blank])))
    ∧ (k < 3)%nat.
Proof.
  destruct (output_is_header_and_whole_rows (replied (Ok sampleErrors)) ctx2
              [jane; john; blank] "customers.csv" usedWorld
              cutFileRun.1 cutFileRun.2)
    as (k & Hk & Hd & [[Hr _]|[_ Hlt]]).
  - intros k. reflexivity.
  - right. reflexivity.
  - vm_compute. reflexivity.
  - vm_compute in Hr. discriminate Hr.
  - exists k. split; [exact Hk|]. split; [exact Hd|exact Hlt].
Defined.

(** The rows of the first records are no longer than the rows of all. *)
Lemma writeAll_take_length useCRLF (customers : list CustomerSegmentMember) k :
  (String.length (writeAll useCRLF (map recordOf (take k customers)))
   <= String.length (writeAll useCRLF (map recordOf customers)))%nat.
Proof.
  rewrite <- (take_drop k customers) at 2.
  rewrite map_app, writeAll_app, length_app. lia.
Qed.

(** While the rows fit in the buffer, the loop reaches no file. *)
Lemma exportRows_fits env ctx customers : ∀ writer s writer1 s1 r,
  bufio.err (csv.w writer) = None →
  (String.length (bufio.buf (csv.w writer))
   + String.length (writeAll (csv.UseCRLF writer) (map recordOf customers))
   <= bufio.size (csv.w writer))%nat →
  exportRows env ctx customers writer s = (writer1, s1, r) →
  ∃ k, (k <= length customers)%nat
    ∧ csv.w writer1
      = bufio.store (csv.w writer)
          (writeAll (csv.UseCRLF writer) (map recordOf (take k customers)))
    ∧ files s1 = files s ∧ stdout s1 = stdout s
    ∧ ((r = None ∧ k = length customers)
       ∨ (r = Some (errorString exportTimeoutMessage) ∧ (k < length customers)%nat)).
Proof.
  induction customers as [|c rest IH]; intros writer s writer1 s1 r He Hfit H;
    simpl in H.
  - injection H as <- <- <-. exists 0%nat. simpl. rewrite store_nil.
    repeat split; try done. by left.
  - destruct (context.Done ctx (now s)).
    { injection H as <- <- <-. exists 0%nat. simpl. rewrite store_nil.
      repeat split; try done; [lia|]. right. split; [done|lia]. }
    simpl in Hfit. rewrite length_app in Hfit.
    rewrite Write_fits in H by (try done; lia).
    apply IH in H as (k & Hk & H1 & H2 & H3 & H4); [|done|].
    2:{ cbn [csv.w csv.UseCRLF bufio.store bufio.buf bufio.size].
        rewrite length_app. lia. }
    exists (S k). cbn [csv.w csv.UseCRLF] in H1. simpl.
    split; [lia|]. split; [by rewrite H1, store_store|].
    split; [done|]. split; [done|].
    destruct H4 as [[-> ->]|[-> Hlt]]; [by left|right; split; [done|lia]].
Qed.

Lemma sliceTo_min n : ∀ p, sliceTo (Nat.min n (String.length p)) p = sliceTo n p.
Proof.
  induction n as [|n IH]; intros [|c p]; try done. simpl. by rewrite IH.
Qed.

(** A flush at which the device fails after [n] bytes. *)
Lemma Flush_fails env cw s n e :
  bufio.err (csv.w cw) = None →
  (String.length (bufio.buf (csv.w cw)) =? 0)%nat = false →
  devErr env (bufio.nwr (csv.w cw)) = Some (n, e) →
  csv.Flush env cw s
  = os.append (bufio.wr (csv.w cw)) (sliceTo n (bufio.buf (csv.w cw)))
      (emit EvFlush s).
Proof.
  intros He Hlen Hdev. unfold csv.Flush, bufio.Flush, bufio.Buffered, os.Write.
  rewrite He, Hlen, Hdev. cbn [fst snd]. by rewrite sliceTo_min.
Qed.

(** X18. The error of the deferred flush is lost.  When the header and all
    the rows fit in the buffer of the writer (4096 bytes), no byte reaches
    the file before the flush, so no write can fail; if the device then
    fails at the flush after taking [n] bytes, the export still ends as if
    nothing had happened, with no error or with the timeout of the loop,
    and the file holds only the first [n] bytes of the text: nothing at all
    when the device takes none. *)
Theorem flush_failure_is_silent env ctx customers filename s n e :
  filename ≠ EmptyString →
  CreateErr env filename = None →
  (String.length (headerLine +:+ writeAll false (map recordOf customers))
   <= bufio.defaultBufSize)%nat →
  devErr env 0 = Some (n, e) →
  ∃ s' r k,
    exportToCSV env ctx customers filename s = (s', r)
    ∧ ((r = None ∧ k = length customers)
       ∨ (r = Some (errorString exportTimeoutMessage) ∧ (k < length customers)%nat))
    ∧ files s' !! filename
      = Some (sliceTo n
                (headerLine +:+ writeAll false (map recordOf (take k customers))))
    ∧ (n = 0%nat → files s' !! filename = Some EmptyString).
Proof.
  intros Hne HC Hfit Hdev. unfold exportToCSV, exportBody, os.Create.
  destruct (String.eqb_spec filename "") as [|_]; [done|]. rewrite HC.
  rewrite Write_header.
  rewrite length_app in Hfit.
  destruct (exportRows env ctx customers _ _) as [[w1 s1] r] eqn:HR.
  apply exportRows_fits in HR as (k & Hk & Hw & Hf & Ho & Hr); [|done|exact Hfit].
  cbn [csv.w csv.UseCRLF bufio.store bufio.wr bufio.size bufio.buf bufio.err bufio.nwr]
    in Hw.
  exists (os.Close filename (csv.Flush env w1 s1)), r, k.
  split; [done|]. split; [done|].
  assert (Hfile : files (os.Close filename (csv.Flush env w1 s1)) !! filename
                  = Some (sliceTo n
                            (headerLine
                             +:+ writeAll false (map recordOf (take k customers))))).
  { rewrite Flush_fails with (n := n) (e := e); rewrite Hw; try reflexivity;
      [|exact Hdev].
    unfold os.Close. cbn [files emit os.append bufio.store bufio.wr bufio.buf].
    rewrite lookup_insert_eq, Hf. cbn [files emit tick setNow].
    by rewrite lookup_insert_eq. }
  split; [exact Hfile|]. intros ->. rewrite Hfile. by destruct (headerLine +:+ _).
Qed.

Lemma flush_failure_is_silent_witness :
  ∃ s',
    exportToCSV fullDiskEnv ctx5 [jane; john; blank] "customers.csv" world0
    = (s', None)
    ∧ files s' !! "customers.csv" = Some EmptyString.
Proof.
  destruct (flush_failure_is_silent fullDiskEnv ctx5 [jane; john; blank]
              "customers.csv" world0 0%nat (errorString "no space left on device"))
    as (s' & r & k & E & _ & _ & Hempty).
  - discriminate.
  - reflexivity.
  - apply Nat.leb_le. vm_compute. reflexivity.
  - reflexivity.
  - exists s'. split; [|exact (Hempty eq_refl)].
    rewrite E. f_equal.
    assert (Hr : (exportToCSV fullDiskEnv ctx5 [jane; john; blank] "customers.csv"
                    world0).2 = None) by (vm_compute; reflexivity).
    rewrite E in Hr. exact Hr.
Defined.

(** ** More of the pipeline: a run that fits in the deadline *)

Lemma exportRows_in_time env ctx td customers : ∀ writer s x,
  context.doneAt ctx = Some td →
  deviceOK env →
  bufio.err (csv.w writer) = None →
  streamOf (csv.w writer) s = Some x →
  (now s + sumTimes env (csv.nwrites writer) (length customers) < td)%N →
  ∃ writer1 s1, exportRows env ctx customers writer s = (writer1, s1, None).
Proof.
  induction customers as [|c rest IH]; intros writer s x Hd Hdev He Hx Ht.
  - by eexists _, _.
  - simpl in Ht. simpl.
    assert (HD : context.Done ctx (now s) = false).
    { unfold context.Done, context.Err_. rewrite Hd.
      destruct (N.leb_spec td (now s)); [lia|done]. }
    destruct (Write_dev env writer (recordOf c) s x Hdev He Hx)
      as (cw1 & sw & HW & He1 & Hx1).
    pose proof (Write_world _ _ _ _ _ _ _ HW) as (Hn & _ & _ & _ & _ & Hk & _).
    rewrite HD, HW. apply (IH cw1 sw _ Hd Hdev He1 Hx1). rewrite Hn, Hk. lia.
Qed.

Lemma exportToCSV_in_time env ctx td customers filename s :
  context.doneAt ctx = Some td →
  deviceOK env →
  filename = EmptyString ∨ CreateErr env filename = None →
  (now s + sumTimes env 0 (S (length customers)) < td)%N →
  ∃ s', exportToCSV env ctx customers filename s = (s', None).
Proof.
  intros Hd Hdev HC Ht. unfold exportToCSV, exportBody. simpl in Ht.
  destruct (String.eqb_spec filename "") as [->|Hne].
  - rewrite Write_header.
    edestruct (exportRows_in_time env ctx td customers) as (w1 & s1 & ->);
      [done|done| | | |by eexists]; [done|reflexivity|cbn; lia].
  - destruct HC as [->|HC]; [done|]. unfold os.Create. rewrite HC.
    rewrite Write_header.
    edestruct (exportRows_in_time env ctx td customers) as (w1 & s1 & ->);
      [done|done| | | |by eexists]; [done| |cbn; lia].
    unfold streamOf. cbn. rewrite lookup_insert_eq. reflexivity.
Qed.

(** X13. A run that fits in the deadline succeeds: if the server answers
    200 with a body that decodes to a response without errors, the
    destination can be opened, the device accepts every write, the standard
    output takes what is printed, and the headers, the body and all the
    writes (the header and one per record) are over less than five seconds
    after the start, then [Action] returns no error, the destination holds
    the header and a row per record, and the standard output ends with the
    success line and its count. *)
Theorem action_succeeds_in_time env c s body t resp gresp :
  Getenv env "SHOPIFY_DOMAIN" ≠ EmptyString →
  Getenv env "SHOPIFY_ACCESS_TOKEN" ≠ EmptyString →
  Marshal env (mkRequest query (variables c)) = Ok body →
  NewRequestErr env (apiURL (Getenv env "SHOPIFY_DOMAIN")) = None →
  http.Do 5000%N (network env)
    (apiRequest (context.WithTimeout (now s) 5000%N) (Getenv env "SHOPIFY_DOMAIN")
       (Getenv env "SHOPIFY_ACCESS_TOKEN") body) (now s)
    = (t, Ok resp) →
  http.StatusCode resp = http.StatusOK →
  Decode env (http.RespBody resp) = Ok gresp →
  Errors gresp = [] →
  cli.String c "output" = EmptyString ∨ CreateErr env (cli.String c "output") = None →
  deviceOK env →
  printErr env = None →
  (t + http.duration (http.RespBody resp)
   + sumTimes env 0 (S (length (Edges gresp))) < now s + 5000)%N →
  ∃ s',
    Action env c s = (s', None)
    ∧ (if String.eqb (cli.String c "output") ""
       then stdout s'
            = (stdout s +:+ headerLine
                 +:+ writeAll false (map recordOf (Edges gresp)))
              +:+ successMessage (length (Edges gresp)) (cli.String c "output")
       else files s' !! cli.String c "output"
            = Some (headerLine +:+ writeAll false (map recordOf (Edges gresp)))
            ∧ stdout s'
              = stdout s
                +:+ successMessage (length (Edges gresp)) (cli.String c "output")).
Proof.
  intros Hdom Htok HM HN HD HS HDec HErr HC Hdev HP Ht.
  unfold Action, fetchAndExportCustomers.
  destruct (String.eqb_spec (Getenv env "SHOPIFY_DOMAIN") ""); [done|].
  destruct (String.eqb_spec (Getenv env "SHOPIFY_ACCESS_TOKEN") ""); [done|].
  cbn [orb]. unfold executeGraphQLQuery. rewrite HM, HN, HD, HS, HDec.
  rewrite Z.eqb_refl. cbn [negb].
  rewrite HErr. cbn [length Nat.ltb Nat.leb].
  set (s1 := emit EvDecode _).
  destruct (exportToCSV_in_time env (context.WithTimeout (now s) 5000%N)
              (now s + 5000)%N (Edges gresp) (cli.String c "output") s1)
    as (s2 & HX); [done|done|done|exact Ht|].
  rewrite HX. eexists. split; [reflexivity|].
  pose proof (exportToCSV_ok _ _ _ _ _ _ Hdev HX) as Hdel.
  unfold delivered in Hdel.
  assert (Hs1 : stdout s1 = stdout s) by done.
  pose proof (exportToCSV_frame _ _ _ _ _ _ _ HX) as [_ Hkeep].
  destruct (String.eqb_spec (cli.String c "output") "") as [Ho|Ho].
  - unfold fmt.Printf. rewrite HP. cbn [stdout emit]. by rewrite Hdel, Hs1.
  - unfold fmt.Printf. rewrite HP. cbn [stdout emit files]. split; [done|].
    destruct (Hkeep Ho) as [-> _]. by rewrite Hs1.
Qed.

Lemma action_succeeds_in_time_witness :
  ∃ s',
    Action (replied (Ok (mkResponse [jane; john; blank] []))) sampleFlags world0
    = (s', None)
    ∧ files s' !! "customers.csv"
      = Some (headerLine +:+ writeAll false (map recordOf [jane; john; blank]))
    ∧ stdout s' = "Successfully exported 3 customers to customers.csv
".
Proof.
  destruct (action_succeeds_in_time
              (replied (Ok (mkResponse [jane; john; blank] []))) sampleFlags world0
              "{}" 10%N (http.mkResponse 200 okBody)
              (mkResponse [jane; john; blank] []))
    as (s' & E & [Hf Ho]).
  - discriminate.
  - discriminate.
  - reflexivity.
  - reflexivity.
  - reflexivity.
  - reflexivity.
  - reflexivity.
  - reflexivity.
  - right. reflexivity.
  - intros k. reflexivity.
  - reflexivity.
  - vm_compute. reflexivity.
  - exists s'. split; [exact E|]. split; [exact Hf|exact Ho].
Defined.

(** ** More of the pipeline: what a failure says *)

(** X14. The first words of a failure's message tell the step it comes
    from: the fixed configuration message when the domain or the token is
    missing, and then nothing was done; "GraphQL query failed: " when the
    query itself failed; "GraphQL errors: " when the response carried
    errors; "failed to export CSV: " when the query succeeded without errors
    and the export failed.  No two steps share a message. *)
Theorem failure_message_tells_step env ctx c s s' e :
  fetchAndExportCustomers env ctx c s = (s', Some e) →
  ∃ ph, phaseOf (Error e) = Some ph
    ∧ match ph with
      | InConfiguration =>
          s' = s
          ∧ (Getenv env "SHOPIFY_DOMAIN" = EmptyString
             ∨ Getenv env "SHOPIFY_ACCESS_TOKEN" = EmptyString)
      | InQuery =>
          ∃ cause,
            executeGraphQLQuery env ctx (Getenv env "SHOPIFY_DOMAIN")
              (Getenv env "SHOPIFY_ACCESS_TOKEN") (mkRequest query (variables c)) s
            = (s', Err cause)
      | InResponse =>
          ∃ resp,
            executeGraphQLQuery env ctx (Getenv env "SHOPIFY_DOMAIN")
              (Getenv env "SHOPIFY_ACCESS_TOKEN") (mkRequest query (variables c)) s
            = (s', Ok resp)
            ∧ Errors resp ≠ []
      | InExport =>
          ∃ s1 resp cause,
            executeGraphQLQuery env ctx (Getenv env "SHOPIFY_DOMAIN")
              (Getenv env "SHOPIFY_ACCESS_TOKEN") (mkRequest query (variables c)) s
            = (s1, Ok resp)
            ∧ Errors resp = []
            ∧ exportToCSV env ctx (Edges resp) (cli.String c "output") s1
              = (s', Some cause)
      end.
Proof.
  unfold fetchAndExportCustomers.
  destruct (String.eqb_spec (Getenv env "SHOPIFY_DOMAIN") "") as [Hd|Hd].
  { intros [= <- <-]. exists InConfiguration. split; [reflexivity|]. by split; [|left]. }
  destruct (String.eqb_spec (Getenv env "SHOPIFY_ACCESS_TOKEN") "") as [Ht|Ht].
  { intros [= <- <-]. exists InConfiguration. split; [reflexivity|]. by split; [|right]. }
  cbn [orb].
  destruct (executeGraphQLQuery _ _ _ _ _ _) as [s1 [resp|cause]] eqn:HE.
  - destruct (Errors resp) as [|g gs] eqn:HErr; cbn [length Nat.ltb Nat.leb].
    + destruct (exportToCSV _ _ _ _ _) as [s2 [cause|]] eqn:HX; intros [= <- <-].
      exists InExport. split; [reflexivity|]. by exists s1, resp, cause.
    + intros [= <- <-]. exists InResponse. split; [reflexivity|].
      exists resp. split; [done|]. by rewrite HErr.
  - intros [= <- <-]. exists InQuery. split; [reflexivity|]. by exists cause.
Qed.

Lemma failure_message_tells_step_witness :
  (∃ ph, phaseOf "GraphQL query failed: HTTP 401: Unauthorized" = Some ph
         ∧ ph = InQuery)
  ∧ (∃ ph, phaseOf "failed to export CSV: operation timed out during CSV export"
           = Some ph
           ∧ ph = InExport).
Proof.
  split.
  - destruct (failure_message_tells_step
                (sampleEnv (http.Reply 10%N unauthorized) (Ok sampleErrors))
                ctx5 sampleFlags world0
                (fetchAndExportCustomers
                   (sampleEnv (http.Reply 10%N unauthorized) (Ok sampleErrors))
                   ctx5 sampleFlags world0).1
                (wrapError "GraphQL query failed: "
                   (errorString "HTTP 401: Unauthorized")))
      as (ph & Hph & _); [vm_compute; reflexivity|].
    exists ph. split; [exact Hph|]. vm_compute in Hph. by injection Hph.
  - destruct (failure_message_tells_step
                (sampleEnv (http.Reply 4999%N (http.mkResponse 200 okBody))
                   (Ok (mkResponse [jane] [])))
                ctx5 sampleFlags world0
                (fetchAndExportCustomers
                   (sampleEnv (http.Reply 4999%N (http.mkResponse 200 okBody))
                      (Ok (mkResponse [jane] [])))
                   ctx5 sampleFlags world0).1
                (wrapError "failed to export CSV: "
                   (errorString "operation timed out during CSV export")))
      as (ph & Hph & _); [vm_compute; reflexivity|].
    exists ph. split; [exact Hph|]. vm_compute in Hph. by injection Hph.
Defined.

(** ** More of the pipeline: the standard output as destination *)

(** X15. With the empty output name the success line goes to the same
    stream as the CSV: after a successful run whose standard output accepts
    every write, that of the success line included, it holds what it held
    before, the header, a row per record and then
    "Successfully exported N customers to " with a line feed; no file is
    touched. *)
Theorem success_line_follows_csv_on_stdout env ctx c s s' :
  deviceOK env →
  printErr env = None →
  cli.String c "output" = EmptyString →
  fetchAndExportCustomers env ctx c s = (s', None) →
  ∃ s1 resp,
    executeGraphQLQuery env ctx (Getenv env "SHOPIFY_DOMAIN")
      (Getenv env "SHOPIFY_ACCESS_TOKEN") (mkRequest query (variables c)) s
    = (s1, Ok resp)
    ∧ files s' = files s
    ∧ stdout s'
      = stdout s
        +:+ (headerLine +:+ writeAll false (map recordOf (Edges resp))
             +:+ successField (length (Edges resp)) EmptyString
             +:+ String csv.LF EmptyString).
Proof.
  intros Hdev HP Hout. unfold fetchAndExportCustomers. destruct (_ || _); [done|].
  destruct (executeGraphQLQuery _ _ _ _ _ _) as [s1 [resp|cause]] eqn:HE; [|done].
  destruct (Errors resp) as [|g gs] eqn:HErr; [|done]. cbn [length Nat.ltb Nat.leb].
  rewrite Hout.
  destruct (exportToCSV _ _ _ _ _) as [s2 [cause|]] eqn:HX; [done|].
  intros [= <-]. exists s1, resp. split; [done|].
  apply executeGraphQLQuery_frame in HE as (Hf & Ho & _).
  pose proof (exportToCSV_ok _ _ _ _ _ _ Hdev HX) as Hdel.
  unfold delivered in Hdel. cbn in Hdel.
  pose proof (exportToCSV_frame _ _ _ _ _ _ _ HX) as [Hfiles _].
  split.
  - unfold fmt.Printf. cbn [files emit]. rewrite <- Hf. by apply Hfiles.
  - unfold fmt.Printf. rewrite HP. cbn [stdout emit]. rewrite Hdel, Ho.
    unfold successMessage, successField. by rewrite !append_assoc.
Qed.

Lemma success_line_follows_csv_witness :
  stdout (fetchAndExportCustomers (replied (Ok (mkResponse [jane] []))) ctx5
            stdoutFlags world0).1
  = headerLine
    +:+ ("gid://1,Jane Doe,,100.00,USD"
         +:+ String csv.LF ("Successfully exported 1 customers to "
                            +:+ String csv.LF EmptyString)).
Proof.
  destruct (success_line_follows_csv_on_stdout
              (replied (Ok (mkResponse [jane] []))) ctx5 stdoutFlags world0
              (fetchAndExportCustomers (replied (Ok (mkResponse [jane] []))) ctx5
                 stdoutFlags world0).1)
    as (s1 & resp & HE & _ & Ho).
  - intros k. reflexivity.
  - reflexivity.
  - reflexivity.
  - vm_compute. reflexivity.
  - rewrite Ho. injection HE as _ <-. reflexivity.
Defined.

(** X17. What [exportToCSV] opens it also flushes and closes: once the
    file is created, every run, whether it succeeds, is cut short by the
    signal or fails on a write, makes only [Write] calls and then ends with
    the flush of the writer followed by the closing of the file; with the
    standard output as destination it ends with the flush, and no file is
    created or closed. *)
Theorem export_flushes_and_closes env ctx customers filename s s' r :
  exportToCSV env ctx customers filename s = (s', r) →
  filename = EmptyString ∨ CreateErr env filename = None →
  ∃ writes,
    Forall (λ ev, isWrite ev = true) writes
    ∧ log s'
      = log s
        ++ (if String.eqb filename ""
            then writes ++ [EvFlush]
            else EvCreate filename :: writes ++ [EvFlush; EvClose filename]).
Proof.
  assert (HW : ∀ records, Forall (λ ev, isWrite ev = true) (map EvWrite records)).
  { induction records; constructor; done. }
  unfold exportToCSV. destruct (String.eqb_spec filename "") as [->|Hne].
  - destruct (exportBody _ _ _ _ _) as [[w1 s1] r1] eqn:HB. intros [= <- <-] _.
    apply exportBody_log in HB as (k & _ & Hl & _).
    eexists. split; [apply HW|]. by rewrite log_Flush, Hl, <- app_assoc.
  - intros H [->|HC]; [done|]. revert H. unfold os.Create. rewrite HC.
    destruct (exportBody _ _ _ _ _) as [[w1 s1] r1] eqn:HB. intros [= <- <-].
    apply exportBody_log in HB as (k & _ & Hl & _).
    eexists. split; [apply HW|].
    unfold os.Close. rewrite log_emit, log_Flush, Hl. cbn [log emit].
    by rewrite <- !app_assoc.
Qed.

Lemma export_flushes_and_closes_witness :
  ∃ writes,
    Forall (λ ev, isWrite ev = true) writes
    ∧ log cutFileRun.1
      = log usedWorld
        ++ EvCreate "customers.csv" :: writes ++ [EvFlush; EvClose "customers.csv"].
Proof.
  destruct (export_flushes_and_closes (replied (Ok sampleErrors)) ctx2
              [jane; john; blank] "customers.csv" usedWorld
              cutFileRun.1 cutFileRun.2 (surjective_pairing _))
    as (writes & Hw & Hl); [right; reflexivity|].
  exists writes. split; [exact Hw|exact Hl].
Defined.

(** ** The scenarios of the specification *)

Example jane_alone :
  stdout (exportToCSV (replied (Ok sampleErrors)) ctx5 [jane] "" world0).1
  = "ID,Display Name,Email Address,Amount Spent,Currency Code
gid://1,Jane Doe,,100.00,USD
".
Proof. vm_compute. reflexivity. Qed.

Example action_success :
  (Action (replied (Ok (mkResponse [jane; john; blank] []))) sampleFlags world0).2 = None
  ∧ stdout (Action (replied (Ok (mkResponse [jane; john; blank] []))) sampleFlags
              world0).1
    = "Successfully exported 3 customers to customers.csv
".
Proof. split; vm_compute; reflexivity. Qed.

Example action_unauthorized :
  Error <$> (Action (sampleEnv (http.Reply 10%N unauthorized) (Ok sampleErrors))
               sampleFlags world0).2
  = Some "GraphQL query failed: HTTP 401: Unauthorized".
Proof. vm_compute. reflexivity. Qed.

Example action_slow_server :
  Error <$> (Action (sampleEnv (http.Reply 6000%N (http.mkResponse 200 okBody))
                       (Ok sampleErrors)) sampleFlags world0).2
  = Some "GraphQL query failed: operation timed out after 5 seconds".
Proof. vm_compute. reflexivity. Qed.

Example action_slow_body :
  Error <$> (Action (streamingEnv (http.Reply 10%N slowBody)) sampleFlags world0).2
  = Some "GraphQL query failed: failed to decode response: context deadline exceeded".
Proof. vm_compute. reflexivity. Qed.

Example action_deadline_during_export :
  Error <$> (Action (sampleEnv (http.Reply 4999%N (http.mkResponse 200 okBody))
                       (Ok (mkResponse [jane; john] []))) sampleFlags world0).2
  = Some "failed to export CSV: operation timed out during CSV export"
  ∧ files (Action (sampleEnv (http.Reply 4999%N (http.mkResponse 200 okBody))
                     (Ok (mkResponse [jane; john] []))) sampleFlags world0).1
      !! "customers.csv"
    = Some headerLine.
Proof. split; vm_compute; reflexivity. Qed.

Example action_full_disk :
  (Action fullDiskEnv sampleFlags world0).2 = None
  ∧ files (Action fullDiskEnv sampleFlags world0).1 !! "customers.csv"
    = Some EmptyString
  ∧ stdout (Action fullDiskEnv sampleFlags world0).1
    = "Successfully exported 3 customers to customers.csv
".
Proof. repeat split; vm_compute; reflexivity. Qed.

(** A row larger than the buffer spills into the file while it is written:
    when the device fails then, the [Write] fails and the file ends in the
    middle of the row. *)
Example write_failure_leaves_partial_row :
  (exportToCSV shortDiskEnv ctx5 [big; jane] "customers.csv" world0).2
  = Some (errorString "no space left on device")
  ∧ files (exportToCSV shortDiskEnv ctx5 [big; jane] "customers.csv" world0).1
      !! "customers.csv"
    = Some (headerLine +:+ "gid://4," +:+ decimal.Repeat "x" 35).
Proof. split; vm_compute; reflexivity. Qed.

(** When the standard output takes nothing, the run still succeeds, and
    the file is written. *)
Example action_muted :
  (Action mutedEnv sampleFlags world0).2 = None
  ∧ stdout (Action mutedEnv sampleFlags world0).1 = EmptyString
  ∧ files (Action mutedEnv sampleFlags world0).1 !! "customers.csv"
    = Some (headerLine +:+ writeAll false (map recordOf [jane; john; blank])).
Proof. repeat split; vm_compute; reflexivity. Qed.

Example read_examples :
  csv.ReadAll ("a,b" +:+ String csv.LF (String csv.LF ("c,d" +:+ String csv.LF "")))
  = Some [["a"; "b"]; ["c"; "d"]]
  ∧ csv.ReadAll ("a,b" +:+ String csv.CR (String csv.LF "c,d"))
    = Some [["a"; "b"]; ["c"; "d"]]
  ∧ csv.ReadAll ("a,b" +:+ String csv.LF ("c" +:+ String csv.LF "")) = None
  ∧ csv.ReadAll ("a" +:+ String csv.Quote ("b,c" +:+ String csv.LF "")) = None.
Proof. repeat split. Qed.

Example fixed_examples :
  decimal.StringFixed (decimal.mkDecimal 12345 (-3)) 2 = "12.35"
  ∧ decimal.StringFixed (decimal.mkDecimal (-12345) (-3)) 2 = "-12.35"
  ∧ decimal.StringFixed (decimal.mkDecimal 12335 (-3)) 2 = "12.34"
  ∧ decimal.StringFixed (decimal.mkDecimal 100 0) 2 = "100.00"
  ∧ decimal.StringFixed (decimal.mkDecimal (-1) (-3)) 2 = "0.00"
  ∧ decimal.StringFixed (decimal.mkDecimal 5 (-3)) 2 = "0.01"
  ∧ decimal.StringFixed (decimal.mkDecimal 1 3) 2 = "1000.00"
  ∧ decimal.StringFixed (decimal.mkDecimal 123449999 (-7)) 2 = "12.34"
  ∧ decimal.StringFixed (decimal.mkDecimal 7 (-2)) 2 = "0.07".
Proof. repeat split. Qed.
